(** * traycer-lite: a shallow embedding of [src/index.ts]

    The program is a single-pass command-line tool: it parses its arguments,
    classifies the prompt, infers a name, builds an eight-step plan, picks a
    code template and prints (and optionally saves) the result.

    Strings.  A JavaScript string is modelled by [string], a sequence of
    8-bit code units read as the code units 0..255 of the source string
    (ASCII and Latin-1).  On that range [toLowerCase] acts unit by unit, the
    regular-expression class [\s] and [trim] recognise the units 9-13, 32 and
    160, and every keyword and character class of the source is ASCII.  Code
    units above 255 are outside the model.

    Regular expressions.  The source uses only (a) unanchored tests of
    alternations of literal words and (b) two [exec] patterns made of a
    literal word, [\s+] and one identifier group.  Each is translated by
    hand next to the expression it renders. *)

From Stdlib Require Import Bool Arith Lia List Ascii String DecimalString.
Import ListNotations.
Open Scope list_scope.
Open Scope string_scope.

(* ------------------------------------------------------------------ *)
(** ** Code units and primitive string operations *)

Module Js.

Definition code (c : ascii) : nat := nat_of_ascii c.

Definition between (lo hi : nat) (c : ascii) : bool :=
  (lo <=? code c)%nat && (code c <=? hi)%nat.

Definition isUpperAZ (c : ascii) : bool := between 65 90 c.
Definition isLowerAZ (c : ascii) : bool := between 97 122 c.
Definition isDigit (c : ascii) : bool := between 48 57 c.

(** [[a-zA-Z0-9]] *)
Definition isAlnum (c : ascii) : bool := isLowerAZ c || isUpperAZ c || isDigit c.

(** [[a-zA-Z_]] and [[a-zA-Z0-9_]] *)
Definition isIdentStart (c : ascii) : bool :=
  isLowerAZ c || isUpperAZ c || (code c =? 95)%nat.
Definition isIdentChar (c : ascii) : bool := isIdentStart c || isDigit c.

(** [\s], and the characters removed by [trim]: TAB, LF, VT, FF, CR, space
    and the no-break space. *)
Definition isSpace (c : ascii) : bool :=
  between 9 13 c || (code c =? 32)%nat || (code c =? 160)%nat.

(** [String.prototype.toLowerCase] on one code unit: A-Z and the Latin-1
    capitals (192-222 without the multiplication sign 215) move up by 32. *)
Definition lowerChar (c : ascii) : ascii :=
  if isUpperAZ c || between 192 214 c || between 216 222 c
  then ascii_of_nat (code c + 32) else c.

(** [toUpperCase] on one code unit, as used by [toCamelCase], which only
    applies it to a character of [[a-zA-Z0-9]]. *)
Definition upperChar (c : ascii) : ascii :=
  if isLowerAZ c then ascii_of_nat (code c - 32) else c.

Fixpoint map (f : ascii -> ascii) (s : string) : string :=
  match s with
  | EmptyString => EmptyString
  | String c s' => String (f c) (map f s')
  end.

Definition toLowerCase (s : string) : string := map lowerChar s.

Definition isEmpty (s : string) : bool :=
  match s with EmptyString => true | String _ _ => false end.

(** [s.startsWith(k)] *)
Definition startsWith (k s : string) : bool := String.prefix k s.

(** [s.slice(n)] for [0 <= n] *)
Fixpoint sliceFrom (n : nat) (s : string) : string :=
  match n, s with
  | O, _ => s
  | S _, EmptyString => EmptyString
  | S n', String _ s' => sliceFrom n' s'
  end.

(** [s.slice(0, n)] *)
Fixpoint sliceTo (n : nat) (s : string) : string :=
  match n, s with
  | O, _ => EmptyString
  | S _, EmptyString => EmptyString
  | S n', String c s' => String c (sliceTo n' s')
  end.

(** The longest prefix of [s] whose characters satisfy [f], and what is left. *)
Fixpoint takeWhile (f : ascii -> bool) (s : string) : string :=
  match s with
  | EmptyString => EmptyString
  | String c s' => if f c then String c (takeWhile f s') else EmptyString
  end.

Fixpoint dropWhile (f : ascii -> bool) (s : string) : string :=
  match s with
  | EmptyString => EmptyString
  | String c s' => if f c then dropWhile f s' else s
  end.

Fixpoint all (f : ascii -> bool) (s : string) : bool :=
  match s with
  | EmptyString => true
  | String c s' => f c && all f s'
  end.

(** [s.trim()] *)
Fixpoint trimEnd (s : string) : string :=
  match s with
  | EmptyString => EmptyString
  | String c s' =>
      let r := trimEnd s' in
      if isSpace c && isEmpty r then EmptyString else String c r
  end.

Definition trim (s : string) : string := trimEnd (dropWhile isSpace s).

(** [ls.join(sep)] *)
Definition join (sep : string) (ls : list string) : string := String.concat sep ls.

(** Substring test: the unanchored [/k/.test(s)] of a literal [k]. *)
Fixpoint includes (k s : string) : bool :=
  String.prefix k s ||
  match s with
  | EmptyString => false
  | String _ s' => includes k s'
  end.

(** [/(k1|k2|...)/.test(s)]: an unanchored test of an alternation of literal
    words succeeds exactly when one of the words occurs in [s]. *)
Definition test (alternatives : list string) (s : string) : bool :=
  existsb (fun k => includes k s) alternatives.

Definition nl : string := String (ascii_of_nat 10) EmptyString.
Definition dquote : string := String (ascii_of_nat 34) EmptyString.
Definition backslash : string := String (ascii_of_nat 92) EmptyString.

(** The dash U+2014 of two console messages of the source.  It lies outside
    the 8-bit range of the model and stands here as its three UTF-8 bytes;
    it is only ever printed. *)
Definition emDash : string :=
  String (ascii_of_nat 226) (String (ascii_of_nat 128) (String (ascii_of_nat 148) EmptyString)).

End Js.

(* ------------------------------------------------------------------ *)
(** ** Data model *)

(** [interface Flags] *)
Record Flags := mkFlags {
  ai : bool;
  json : bool;
  out : option string;
  help : bool;
  version : bool
}.

(** [interface PlanAndCode] *)
Record PlanAndCode := mkPlanAndCode {
  plan : list string;
  code : string
}.

(** The return type of [guessType]: ['function' | 'component' | 'script' | 'api'] *)
Inductive ArtifactType := TyFunction | TyComponent | TyScript | TyApi.

Definition ArtifactType_eqb (a b : ArtifactType) : bool :=
  match a, b with
  | TyFunction, TyFunction | TyComponent, TyComponent
  | TyScript, TyScript | TyApi, TyApi => true
  | _, _ => false
  end.

(* ------------------------------------------------------------------ *)
(** ** Argument parser *)

Definition initialFlags : Flags := mkFlags false false None false false.

Definition set_ai (f : Flags) : Flags := mkFlags true (json f) (out f) (help f) (version f).
Definition set_json (f : Flags) : Flags := mkFlags (ai f) true (out f) (help f) (version f).
Definition set_help (f : Flags) : Flags := mkFlags (ai f) (json f) (out f) true (version f).
Definition set_version (f : Flags) : Flags := mkFlags (ai f) (json f) (out f) (help f) true.
Definition set_out (v : string) (f : Flags) : Flags :=
  mkFlags (ai f) (json f) (Some v) (help f) (version f).

(** The guard of the [--out <path>] rule on the token after [--out]:
    [argv[i + 1] && !argv[i + 1].startsWith('--')].  A missing token
    ([undefined]) and the empty string are both falsy. *)
Definition outOperand (next : option string) : bool :=
  match next with
  | None => false
  | Some t => negb (Js.isEmpty t) && negb (Js.startsWith "--" t)
  end.

(** The [for] loop of [parseArgs]: [argv] is the part of the argument list
    from index [i] on, [flags] and [rest] are the two mutated locals.  The
    [--out <path>] rule advances [i] twice. *)
Fixpoint parseLoop (flags : Flags) (rest : list string) (argv : list string)
  : Flags * list string :=
  match argv with
  | [] => (flags, rest)
  | arg :: tl =>
      if arg =? "--ai" then parseLoop (set_ai flags) rest tl
      else if arg =? "--json" then parseLoop (set_json flags) rest tl
      else if (arg =? "--help") || (arg =? "-h") then parseLoop (set_help flags) rest tl
      else if (arg =? "--version") || (arg =? "-v") then parseLoop (set_version flags) rest tl
      else if (arg =? "--out") && outOperand (hd_error tl) then
        match tl with
        | path :: tl' => parseLoop (set_out path flags) rest tl'
        | [] => (flags, rest) (* not reached: the guard needs a next token *)
        end
      else if Js.startsWith "--out=" arg then parseLoop (set_out (Js.sliceFrom 6 arg) flags) rest tl
      else parseLoop flags (rest ++ [arg]) tl
  end.

Definition parseArgs (argv : list string) : Flags * string :=
  let (flags, rest) := parseLoop initialFlags [] argv in
  (flags, Js.trim (Js.join " " rest)).

(* ------------------------------------------------------------------ *)
(** ** Prompt classifier *)

Definition functionWords : list string :=
  ["check"; "compute"; "calculate"; "determine"; "find"; "prime"; "factorial";
   "fibonacci"; "reverse"].
Definition componentWords : list string := ["react"; "component"; "jsx"; "tsx"].
Definition apiWords : list string := ["endpoint"; "api"; "http"; "express"; "fetch"].
Definition scriptWords : list string := ["script"; "cli"; "command"; "utility"].

Definition guessType (prompt : string) : ArtifactType :=
  let p := Js.toLowerCase prompt in
  if Js.test ["function"] p || Js.test functionWords p then TyFunction
  else if Js.test componentWords p then TyComponent
  else if Js.test apiWords p then TyApi
  else if Js.test scriptWords p then TyScript
  else TyFunction.

(* ------------------------------------------------------------------ *)
(** ** Name inferencer *)

(** What follows the literal word of an [exec] pattern:
    [\s+] and the group [[a-zA-Z_][a-zA-Z0-9_]*], matched at the start of [s].  The
    quantifiers are greedy; no character is both in [\s] and in
    [[a-zA-Z_]], so giving back white space never helps, and the group takes
    the longest run of identifier characters. *)
Definition matchSpacesIdent (s : string) : option string :=
  match s with
  | String c _ =>
      if Js.isSpace c then
        match Js.dropWhile Js.isSpace s with
        | String d r =>
            if Js.isIdentStart d then Some (String d (Js.takeWhile Js.isIdentChar r))
            else None
        | EmptyString => None
        end
      else None
  | EmptyString => None
  end.

(** One attempt of [/function\s+(IDENT)/] at the start of [s], where IDENT
    stands for [[a-zA-Z_][a-zA-Z0-9_]*]. *)
Definition matchFunctionAt (s : string) : option string :=
  if Js.startsWith "function" s then matchSpacesIdent (Js.sliceFrom 8 s) else None.

(** One attempt of [/(?:called|named)\s+(IDENT)/] at the
    start of [s]; the alternatives are tried in order. *)
Definition matchNamedAt (s : string) : option string :=
  match (if Js.startsWith "called" s then matchSpacesIdent (Js.sliceFrom 6 s) else None) with
  | Some id => Some id
  | None => if Js.startsWith "named" s then matchSpacesIdent (Js.sliceFrom 5 s) else None
  end.

(** [re.exec(s)] for a pattern without flags: the attempt is made at every
    start position from left to right and the first success is the match;
    the result is the captured group 1. *)
Fixpoint exec (matchAt : string -> option string) (s : string) : option string :=
  match matchAt s with
  | Some id => Some id
  | None =>
      match s with
      | EmptyString => None
      | String _ s' => exec matchAt s'
      end
  end.

(** [input.split(/\s+/)]: the pieces between maximal runs of white space;
    a run at either end leaves an empty piece there. *)
Fixpoint splitSpaces (s : string) : list string :=
  match s with
  | EmptyString => [EmptyString]
  | String c s' =>
      if Js.isSpace c then
        match s' with
        | String c' _ => if Js.isSpace c' then splitSpaces s' else EmptyString :: splitSpaces s'
        | EmptyString => EmptyString :: splitSpaces s'
        end
      else
        match splitSpaces s' with
        | w :: ws => String c w :: ws
        | [] => [String c EmptyString]
        end
  end.

(** [w.charAt(0).toUpperCase() + w.slice(1).toLowerCase()] *)
Definition capitalize (w : string) : string :=
  match w with
  | EmptyString => EmptyString
  | String c w' => String (Js.upperChar c) (Js.toLowerCase w')
  end.

(** The callback of [.map((w, i) => ...)], [i] being the index of [w]. *)
Fixpoint camelWords (i : nat) (ws : list string) : list string :=
  match ws with
  | [] => []
  | w :: ws' =>
      (match i with O => Js.toLowerCase w | S _ => capitalize w end) :: camelWords (S i) ws'
  end.

Definition toCamelCase (input : string) : string :=
  let replaced := Js.map (fun c => if Js.isAlnum c || (Js.code c =? 32)%nat then c else " "%char) input in
  let words := filter (fun w => negb (Js.isEmpty w)) (splitSpaces replaced) in
  Js.join EmptyString (camelWords 0 words).

Definition guessName (prompt : string) (type : ArtifactType) : string :=
  match exec matchFunctionAt prompt with
  | Some id => id
  | None =>
  match exec matchNamedAt prompt with
  | Some id => id
  | None =>
      let camel := Js.sliceTo 24 (toCamelCase prompt) in
      let base :=
        if Js.isEmpty camel
        then (if ArtifactType_eqb type TyComponent then "MyComponent" else "doWork")
        else camel in
      if Js.test ["reverse"] (Js.toLowerCase prompt) then "reverseString"
      else if Js.test ["fibonacci"; "fib"] (Js.toLowerCase prompt) then "fibonacci"
      else if Js.test ["factorial"] (Js.toLowerCase prompt) then "factorial"
      else if Js.test ["debounce"] (Js.toLowerCase prompt) then "debounce"
      else if Js.test ["throttle"] (Js.toLowerCase prompt) then "throttle"
      else if Js.test ["prime"] (Js.toLowerCase prompt) then "isPrime"
      else base
  end end.

(* ------------------------------------------------------------------ *)
(** ** Plan generator *)

(** [steps.push] calls in program order; each [if] contributes its step or
    nothing. *)
Definition makePlan (prompt : string) (type : ArtifactType) (name : string) : list string :=
  ([("Restate goal: " ++ prompt)%string;
    "Identify inputs and outputs.";
    "List edge cases and constraints."]
   ++ (if ArtifactType_eqb type TyFunction then ["Design function signature and return type."] else [])
   ++ (if ArtifactType_eqb type TyComponent then ["Sketch props and state; plan rendering."] else [])
   ++ (if ArtifactType_eqb type TyApi then ["Define route, method, request/response schema, and errors."] else [])
   ++ (if ArtifactType_eqb type TyScript then ["Define CLI flags, usage, and I/O."] else [])
   ++ ["Outline algorithm in small steps.";
       "Write code with clear comments.";
       "Add basic tests or examples.";
       "Validate on edge cases."])%list.

(* ------------------------------------------------------------------ *)
(** ** Template selector *)

(** The text of a template: every line of the source literal ends in a line
    feed, the last one included. *)
Fixpoint lines (ls : list string) : string :=
  match ls with
  | [] => EmptyString
  | l :: ls' => l ++ Js.nl ++ lines ls'
  end.

(** The six template literals of [codeTemplateFunction], in program order. *)

(** the [/prime/] branch *)
Definition primeTemplate (name : string) : string :=
  lines
      ["export function " ++ name ++ "(n: number): boolean {";
       "  if (!Number.isInteger(n) || n < 2) return false;";
       "  for (let i = 2; i * i <= n; i++) {";
       "    if (n % i === 0) return false;";
       "  }";
       "  return true;";
       "}"].

(** the [/fibonacci|fib/] branch *)
Definition fibonacciTemplate (name : string) : string :=
  lines
      ["export function " ++ name ++ "(n: number): number {";
       "  if (!Number.isInteger(n) || n < 0) throw new Error('n must be a non-negative integer');";
       "  if (n <= 1) return n;";
       "  let a = 0, b = 1;";
       "  for (let i = 2; i <= n; i++) {";
       "    const next = a + b;";
       "    a = b;";
       "    b = next;";
       "  }";
       "  return b;";
       "}"].

(** the [/factorial/] branch *)
Definition factorialTemplate (name : string) : string :=
  lines
      ["export function " ++ name ++ "(n: number): number {";
       "  if (!Number.isInteger(n) || n < 0) throw new Error('n must be a non-negative integer');";
       "  let acc = 1;";
       "  for (let i = 2; i <= n; i++) acc *= i;";
       "  return acc;";
       "}"].

(** the [/reverse/ && /string/] branch *)
Definition reverseTemplate (name : string) : string :=
  lines
      ["export function " ++ name ++ "(s: string): string {";
       "  return Array.from(s).reverse().join('');";
       "}"].

(** the [/debounce/] branch *)
Definition debounceTemplate (name : string) : string :=
  lines
      ["export function " ++ name ++ "<T extends (...args: any[]) => any>(fn: T, wait: number) {";
       "  let t: NodeJS.Timeout | null = null;";
       "  return (...args: Parameters<T>) => {";
       "    if (t) clearTimeout(t);";
       "    t = setTimeout(() => fn(...args), wait);";
       "  };";
       "}"].

(** the final [return] *)
Definition stubTemplate (name : string) : string :=
  lines
      ["export function " ++ name ++ "(/* params */): any {";
       "  throw new Error('Not implemented');";
       "}"].

Definition codeTemplateFunction (name prompt : string) : string :=
  let p := Js.toLowerCase prompt in
  if Js.test ["prime"] p then primeTemplate name
  else if Js.test ["fibonacci"; "fib"] p then fibonacciTemplate name
  else if Js.test ["factorial"] p then factorialTemplate name
  else if Js.test ["reverse"] p && Js.test ["string"] p then reverseTemplate name
  else if Js.test ["debounce"] p then debounceTemplate name
  else stubTemplate name.

Definition codeTemplateComponent (name _prompt : string) : string :=
  lines
      ["import React, { useState } from 'react';";
       EmptyString;
       "export function " ++ name ++ "() {";
       "  const [value, setValue] = useState('');";
       "  return (";
       "    <div style={{ fontFamily: 'system-ui', padding: 12 }}>";
       "      <label>";
       "        <span>Value:</span>";
       "        <input value={value} onChange={e => setValue(e.target.value)} />";
       "      </label>";
       "      <pre>Current: {value}</pre>";
       "    </div>";
       "  );";
       "}"].

Definition codeTemplateAPI (name _prompt : string) : string :=
  lines
      ["import http from 'node:http';";
       EmptyString;
       "const server = http.createServer((req, res) => {";
       "  if (req.method === 'GET' && req.url === '/health') {";
       "    res.writeHead(200, { 'Content-Type': 'application/json' });";
       "    res.end(JSON.stringify({ ok: true }));";
       "    return;";
       "  }";
       "  res.writeHead(404);";
       "  res.end();";
       "});";
       EmptyString;
       "server.listen(3000, () => {";
       "  console.log('API listening on http://localhost:3000');";
       "});"].

Definition codeTemplateScript (name _prompt : string) : string :=
  lines
      ["#!/usr/bin/env node";
       "const args = process.argv.slice(2);";
       "if (args.length === 0) {";
       "  console.log('Usage: my-cli <text>');";
       "  process.exit(1);";
       "}";
       "console.log('You said:', args.join(' '));"].

Definition makeOfflinePlanAndCode (prompt : string) : PlanAndCode :=
  let type := guessType prompt in
  let name := guessName prompt type in
  let plan := makePlan prompt type name in
  let code :=
    match type with
    | TyFunction => codeTemplateFunction name prompt
    | TyComponent => codeTemplateComponent name prompt
    | TyApi => codeTemplateAPI name prompt
    | TyScript => codeTemplateScript name prompt
    end in
  mkPlanAndCode plan code.

(* ------------------------------------------------------------------ *)
(** ** Console text *)

(** The argument of [console.log] in [printHelp]. *)
Definition helpText : string :=
  Js.join Js.nl
    [EmptyString;
     "Traycer-Lite " ++ Js.emDash ++ " show a planning layer + final TypeScript code";
     EmptyString;
     "Usage:";
     "  traycer-lite [options] <prompt>";
     EmptyString;
     "Options:";
     "  --ai            Use Hugging Face (optional) if HUGGINGFACE_API_KEY is set";
     "  --json          Output raw JSON { plan: string[], code: string }";
     "  --out <file>    Save the generated code to a file";
     "  -h, --help      Show help";
     "  -v, --version   Show version";
     EmptyString;
     "Examples:";
     "  traycer-lite " ++ Js.dquote ++ "write a function to reverse a string" ++ Js.dquote;
     "  traycer-lite --out reverse.ts " ++ Js.dquote ++ "reverse a string in TypeScript" ++ Js.dquote;
     "  traycer-lite --ai " ++ Js.dquote ++ "implement debounce(fn, wait)" ++ Js.dquote;
     EmptyString].

Definition versionText : string := "traycer-lite v0.1.0".

(* ------------------------------------------------------------------ *)
(** ** JSON text *)

Definition hexDigit (n : nat) : string :=
  String.substring n 1 "0123456789abcdef".

(** The escape of one code unit inside a JSON string literal. *)
Definition jsonEscapeChar (c : ascii) : string :=
  let n := Js.code c in
  if (n =? 34)%nat then Js.backslash ++ Js.dquote
  else if (n =? 92)%nat then Js.backslash ++ Js.backslash
  else if (n =? 8)%nat then Js.backslash ++ "b"
  else if (n =? 9)%nat then Js.backslash ++ "t"
  else if (n =? 10)%nat then Js.backslash ++ "n"
  else if (n =? 12)%nat then Js.backslash ++ "f"
  else if (n =? 13)%nat then Js.backslash ++ "r"
  else if (n <? 32)%nat then Js.backslash ++ "u00" ++ hexDigit (n / 16) ++ hexDigit (n mod 16)
  else String c EmptyString.

Fixpoint jsonEscape (s : string) : string :=
  match s with
  | EmptyString => EmptyString
  | String c s' => jsonEscapeChar c ++ jsonEscape s'
  end.

(** [JSON.stringify(s)] of a string. *)
Definition jsonString (s : string) : string := Js.dquote ++ jsonEscape s ++ Js.dquote.

(** [JSON.stringify({ inputs: prompt })] *)
Definition requestBody (prompt : string) : string :=
  "{" ++ jsonString "inputs" ++ ":" ++ jsonString prompt ++ "}".

(** [JSON.stringify(result, null, 2)] of an object with the two keys [plan]
    and [code], in this order, as [makeOfflinePlanAndCode] builds it. *)
Definition jsonPlanAndCode (r : PlanAndCode) : string :=
  let items :=
    match plan r with
    | [] => "[]"
    | _ => "[" ++ Js.nl
           ++ Js.join ("," ++ Js.nl) (List.map (fun s => "    " ++ jsonString s) (plan r))
           ++ Js.nl ++ "  ]"
    end in
  "{" ++ Js.nl
  ++ "  " ++ jsonString "plan" ++ ": " ++ items ++ "," ++ Js.nl
  ++ "  " ++ jsonString "code" ++ ": " ++ jsonString (code r) ++ Js.nl
  ++ "}".

(* ------------------------------------------------------------------ *)
(** ** Remote completion adapter and orchestrator

    The outside of the program is a [World]; what the program does to it is
    a list of [Event]s in program order together with the exit status. *)

Record World := mkWorld {
  (** [process.env.HUGGINGFACE_API_KEY] *)
  apiKey : option string;
  (** What [maybeAIPlanAndCode] makes of the reply to its request for a
      prompt: the decoded plan and code, or [None] when the request or the
      decoding fails in any way (the [catch] and the [return null]s).  The
      source checks that [plan] is an array and [code] a string and then
      asserts the type [PlanAndCode] for the parsed object; the model takes
      that type at its word: a reply whose plan items are not strings, or
      that has further keys, is outside the model. *)
  remoteAnswer : string -> option PlanAndCode;
  (** whether [process.cwd()] throws *)
  cwdThrows : bool;
  (** [resolve(cwd, path)] for the value [cwd] of [process.cwd()] *)
  resolvePath : string -> string;
  (** [existsSync(path)] *)
  pathExists : string -> bool;
  (** whether [writeFileSync(path, ...)] throws *)
  writeFails : string -> bool
}.

Inductive Event :=
| ConsoleLog (text : string)
| ConsoleWarn (text : string)
| ConsoleError (text : string)
| HttpPost (url authorization body : string)
| FileWrite (path content : string).

Record Outcome := mkOutcome {
  events : list Event;
  exitCode : nat
}.

Definition endpoint : string :=
  "https://api-inference.huggingface.co/models/HuggingFaceH4/zephyr-7b-beta".

(** A [string | undefined] used as a condition. *)
Definition truthy (v : option string) : bool :=
  match v with
  | Some s => negb (Js.isEmpty s)
  | None => false
  end.

Definition maybeAIPlanAndCode (w : World) (prompt : string)
  : list Event * option PlanAndCode :=
  match apiKey w with
  | Some key =>
      if Js.isEmpty key then ([], None)
      else ([HttpPost endpoint ("Bearer " ++ key) (requestBody prompt)], remoteAnswer w prompt)
  | None => ([], None)
  end.

Definition decimal (n : nat) : string := NilEmpty.string_of_uint (Nat.to_uint n).

(** [result.plan.forEach((s, i) => console.log(`${i + 1}. ${s}`))] *)
Fixpoint logSteps (i : nat) (steps : list string) : list Event :=
  match steps with
  | [] => []
  | s :: steps' => ConsoleLog (decimal (i + 1) ++ ". " ++ s) :: logSteps (S i) steps'
  end.

(** The rendering part of [main]. *)
Definition render (flags : Flags) (result : PlanAndCode) : list Event :=
  if json flags then [ConsoleLog (jsonPlanAndCode result)]
  else
    ([ConsoleLog "Planning Layer"]
     ++ logSteps 0 (plan result)
     ++ [ConsoleLog (Js.nl ++ "Final Code")%string; ConsoleLog (code result)])%list.

(** The [--out] part of [main]; the [bool] tells whether it threw, which
    [process.cwd()] can do before anything else happens and [writeFileSync]
    after the warning.  ([resolve] gets two strings and [existsSync] returns
    [false] on any error: neither throws.) *)
Definition save (w : World) (flags : Flags) (result : PlanAndCode) : list Event * bool :=
  match out flags with
  | Some o =>
      if Js.isEmpty o then ([], false)
      else if cwdThrows w then ([], true)
      else
        let outPath := resolvePath w o in
        let warned :=
          if pathExists w outPath
          then [ConsoleWarn ("File already exists: " ++ outPath ++ " " ++ Js.emDash ++ " overwriting.")]
          else [] in
        if writeFails w outPath then (warned, true)
        else ((warned ++ [FileWrite outPath (code result); ConsoleLog ("Saved to " ++ outPath)%string])%list, false)
  | None => ([], false)
  end.

(** The choice of the result in [main]: the remote one when [--ai] is given
    and the adapter returns one, the offline one otherwise. *)
Definition generate (w : World) (flags : Flags) (prompt : string)
  : list Event * PlanAndCode :=
  let (requested, remote) :=
    if ai flags then maybeAIPlanAndCode w prompt else ([], None) in
  (requested,
   match remote with
   | Some r => r
   | None => makeOfflinePlanAndCode prompt
   end).

(** [main] after its two early returns. *)
Definition run (w : World) (flags : Flags) (prompt : string) : Outcome :=
  let (requested, result) := generate w flags prompt in
  let (saved, threw) := save w flags result in
  if threw
  then mkOutcome (requested ++ render flags result ++ saved ++ [ConsoleError "Unexpected error:"])%list 1
  else mkOutcome (requested ++ render flags result ++ saved)%list 0.

(** [main], with the [catch] handler of the last lines of the file. *)
Definition main (w : World) (argv : list string) : Outcome :=
  let (flags, prompt) := parseArgs argv in
  if version flags then mkOutcome [ConsoleLog versionText] 0
  else if help flags || Js.isEmpty prompt
  then mkOutcome [ConsoleLog helpText] (if Js.isEmpty prompt then 1 else 0)
  else run w flags prompt.

(* ------------------------------------------------------------------ *)
(** ** The object inside the generated text *)

(** The longest prefix of [s] that ends in a closing brace, if [s] has a
    closing brace at all. *)
Fixpoint upToLastBrace (s : string) : option string :=
  match s with
  | EmptyString => None
  | String c s' =>
      match upToLastBrace s' with
      | Some m => Some (String c m)
      | None => if Ascii.eqb c "}" then Some (String c EmptyString) else None
      end
  end.

(** [text.match(/\{[\s\S]*\}/)] in [maybeAIPlanAndCode], as element 0 of the
    match or [None] for [null].  The match starts at the first opening
    brace; [[\s\S]*] is greedy and matches any character, so the match ends
    at the last closing brace after that start; when there is none, no later
    start can succeed either. *)
Definition braceMatch (text : string) : option string :=
  match Js.dropWhile (fun c => negb (Ascii.eqb c "{")) text with
  | String open r =>
      match upToLastBrace r with
      | Some m => Some (String open m)
      | None => None
      end
  | EmptyString => None
  end.

(* ================================================================== *)
(** * Vocabulary of the properties *)

(** ** Words in a string *)

(** [k] occurs in [s] as a substring. *)
Definition occurs (k s : string) : Prop := exists pre post, s = pre ++ k ++ post.

(** One of the [words] occurs in [s]. *)
Definition mentions (words : list string) (s : string) : Prop :=
  exists k, In k words /\ occurs k s.

(** ** Explicit names *)

(** A non-empty run of white space: a match of [\s+]. *)
Definition spaces (ws : string) : Prop :=
  ws <> EmptyString /\ Js.all Js.isSpace ws = true.

(** A match of [[a-zA-Z_][a-zA-Z0-9_]*]. *)
Definition identifier (id : string) : Prop :=
  exists c r, id = String c r /\ Js.isIdentStart c = true /\ Js.all Js.isIdentChar r = true.

(** The text after a greedy identifier group: it does not go on with an
    identifier character. *)
Definition identStops (post : string) : Prop :=
  match post with
  | String c _ => Js.isIdentChar c = false
  | EmptyString => True
  end.

(** After [pre], the string [s] reads: one of [words], white space, the
    identifier [id]. *)
Definition patternAt (words : list string) (pre id s : string) : Prop :=
  exists w ws post,
    In w words /\ s = pre ++ w ++ ws ++ id ++ post /\ spaces ws /\ identifier id.

(** The pattern matches somewhere in [s]. *)
Definition containsPattern (words : list string) (s : string) : Prop :=
  exists pre id, patternAt words pre id s.

(** [id] is group 1 of the match of the pattern in [s]: the match starts at
    the leftmost position where the pattern matches, and the group is as
    long as it can be. *)
Definition captured (words : list string) (s id : string) : Prop :=
  exists pre w ws post,
    In w words /\ s = pre ++ w ++ ws ++ id ++ post /\ spaces ws /\ identifier id /\
    identStops post /\
    forall pre' id', patternAt words pre' id' s -> String.length pre <= String.length pre'.

(** The attempt of both patterns for one literal word. *)
Definition matchWordAt (word s : string) : option string :=
  if Js.startsWith word s
  then matchSpacesIdent (Js.sliceFrom (String.length word) s)
  else None.

(** ** Plan steps *)

(** The step that [makePlan] adds for an artifact type. *)
Definition typeStep (type : ArtifactType) : string :=
  match type with
  | TyFunction => "Design function signature and return type."
  | TyComponent => "Sketch props and state; plan rendering."
  | TyApi => "Define route, method, request/response schema, and errors."
  | TyScript => "Define CLI flags, usage, and I/O."
  end.

(** ** Rounds of the argument loop *)

(** One round of the loop of [parseArgs] on the token [arg], [next] being
    the token after it if there is one: the new flags, the new prompt tokens
    and whether [next] was taken as the operand of [--out]. *)
Definition parseStep (flags : Flags) (rest : list string) (arg : string)
  (next : option string) : Flags * list string * bool :=
  if arg =? "--ai" then (set_ai flags, rest, false)
  else if arg =? "--json" then (set_json flags, rest, false)
  else if (arg =? "--help") || (arg =? "-h") then (set_help flags, rest, false)
  else if (arg =? "--version") || (arg =? "-v") then (set_version flags, rest, false)
  else if (arg =? "--out") && outOperand next then
    match next with
    | Some path => (set_out path flags, rest, true)
    | None => (flags, rest, false)
    end
  else if Js.startsWith "--out=" arg then (set_out (Js.sliceFrom 6 arg) flags, rest, false)
  else (flags, (rest ++ [arg])%list, false).

(** The loop of [parseArgs] from its initial state: the flags and the prompt
    tokens. *)
Definition parsed (argv : list string) : Flags * list string :=
  parseLoop initialFlags [] argv.

(** A token that matches none of the flag rules. *)
Definition plainToken (tok : string) : Prop :=
  ~ In tok ["--ai"; "--json"; "--help"; "-h"; "--version"; "-v"; "--out"] /\
  Js.startsWith "--out=" tok = false.

(** The token [tok] after the tokens [pre] is looked at by the loop: it is
    not taken as the operand of a [--out] in front of it. *)
Definition scannedAfter (pre : list string) (tok : string) : Prop :=
  last pre EmptyString <> "--out" \/ outOperand (Some tok) = false.

(** ** Worlds and flags *)

(** A machine without an API key, with an empty directory and a working
    disk. *)
Definition offlineWorld : World :=
  mkWorld None (fun _ => None) false (fun p => "/work/" ++ p) (fun _ => false)
    (fun _ => false).

(** A machine with an API key whose service answers every prompt. *)
Definition onlineWorld : World :=
  mkWorld (Some "hf_token") (fun _ => Some (mkPlanAndCode ["Ask the model."] "// remote"))
    false (fun p => "/work/" ++ p) (fun _ => true) (fun _ => false).

(** Two flag records that differ at most in [ai]. *)
Definition sameButAi (f g : Flags) : Prop :=
  json f = json g /\ out f = out g /\ help f = help g /\ version f = version g.

(** The offline path is taken: [--ai] is absent or the adapter returns no
    result. *)
Definition offlinePath (w : World) (flags : Flags) (prompt : string) : Prop :=
  ai flags = false \/ snd (maybeAIPlanAndCode w prompt) = None.

(** ** Characters kept *)

(** The characters of [s] that satisfy [f], in order. *)
Fixpoint keep (f : ascii -> bool) (s : string) : string :=
  match s with
  | EmptyString => EmptyString
  | String c s' => if f c then String c (keep f s') else keep f s'
  end.

(** The replacement callback of [toCamelCase]: [[^a-zA-Z0-9 ]] becomes a
    space. *)
Definition blankOut (c : ascii) : ascii :=
  if Js.isAlnum c || (Js.code c =? 32)%nat then c else " "%char.

(** ** Tokens of the argument list *)

(** A token that cannot set the output path: neither [--out] nor of the form
    [--out=value]. *)
Definition noOutToken (tok : string) : Prop :=
  tok <> "--out" /\ Js.startsWith "--out=" tok = false.

(** A token made of white space only (the empty token included). *)
Definition blankToken (tok : string) : Prop := Js.all Js.isSpace tok = true.

(** ** Characters absent from a string *)

(** The character [c] does not occur in [s]. *)
Definition lacks (c : ascii) (s : string) : Prop :=
  Js.all (fun x => negb (Ascii.eqb x c)) s = true.

(** ** Reading JSON string text back *)

Definition hexValue (c : ascii) : nat :=
  if Js.isDigit c then Js.code c - 48 else Js.code c - 87.

(** The first code unit that a JSON string body stands for, and what follows
    it; [None] at the closing quote, at the end, and for an escape that
    [jsonEscapeChar] does not write. *)
Definition jsonDecodeHead (s : string) : option (ascii * string) :=
  match s with
  | EmptyString => None
  | String c r =>
      if (Js.code c =? 34)%nat then None
      else if (Js.code c =? 92)%nat then
        match r with
        | String e r' =>
            if (Js.code e =? 34)%nat then Some (e, r')
            else if (Js.code e =? 92)%nat then Some (e, r')
            else if (Js.code e =? 98)%nat then Some (ascii_of_nat 8, r')
            else if (Js.code e =? 116)%nat then Some (ascii_of_nat 9, r')
            else if (Js.code e =? 110)%nat then Some (ascii_of_nat 10, r')
            else if (Js.code e =? 102)%nat then Some (ascii_of_nat 12, r')
            else if (Js.code e =? 114)%nat then Some (ascii_of_nat 13, r')
            else if (Js.code e =? 117)%nat then
              match r' with
              | String _ (String _ (String h (String l r''))) =>
                  Some (ascii_of_nat (16 * hexValue h + hexValue l), r'')
              | _ => None
              end
            else None
        | EmptyString => None
        end
      else Some (c, r)
  end.

(** The items of a non-empty plan array after the first string, up to the
    end of the array, as [jsonPlanAndCode] lays them out. *)
Fixpoint jsonMoreItems (steps : list string) (rest : string) : string :=
  match steps with
  | [] => Js.nl ++ "  ]" ++ rest
  | s :: steps' => "," ++ Js.nl ++ "    " ++ jsonString s ++ jsonMoreItems steps' rest
  end.

(* ================================================================== *)
(** * Properties *)

(** ** Strings *)

Section StringFacts.

Lemma append_nil_r (s : string) : s ++ EmptyString = s.
Proof. induction s as [|c s IH]; simpl; [reflexivity | now rewrite IH]. Qed.

Lemma append_assoc (a b c : string) : (a ++ b) ++ c = a ++ b ++ c.
Proof. induction a as [|x a IH]; simpl; [reflexivity | now rewrite IH]. Qed.

Lemma append_inv_head (a x y : string) : a ++ x = a ++ y -> x = y.
Proof.
  induction a as [|c a IH]; simpl; intros H; [exact H|].
  injection H as H. now apply IH.
Qed.

(** Two splittings of one string at the same length are the same splitting. *)
Lemma append_eq_length (a b a' b' : string) :
  a ++ b = a' ++ b' -> String.length a = String.length a' -> a = a' /\ b = b'.
Proof.
  revert a'. induction a as [|c a IH]; intros [|c' a']; simpl; intros H L;
    try discriminate; [now split|].
  injection H as -> H. injection L as L.
  destruct (IH _ H L) as [-> ->]. now split.
Qed.

Lemma prefix_iff (k s : string) :
  String.prefix k s = true <-> exists post, s = k ++ post.
Proof.
  revert s. induction k as [|c k IH]; intros s; simpl.
  - destruct s; split; intros _; try reflexivity; eexists; reflexivity.
  - destruct s as [|d s].
    + split; [discriminate | intros [post H]; discriminate].
    + simpl. destruct (ascii_dec c d) as [->|N].
      * rewrite IH. split; intros [post H]; exists post.
        -- now rewrite H.
        -- now injection H.
      * split; [discriminate|]. intros [post H]. injection H as H _. congruence.
Qed.

Lemma prefix_append (k post : string) : String.prefix k (k ++ post) = true.
Proof. apply prefix_iff. now exists post. Qed.

(** [sliceFrom] removes a prefix of the given length. *)
Lemma sliceFrom_append (k post : string) :
  Js.sliceFrom (String.length k) (k ++ post) = post.
Proof. induction k as [|c k IH]; simpl; [now destruct post | exact IH]. Qed.

Lemma map_append (f : ascii -> ascii) (a b : string) :
  Js.map f (a ++ b) = Js.map f a ++ Js.map f b.
Proof. induction a as [|c a IH]; simpl; [reflexivity | now rewrite IH]. Qed.

End StringFacts.

Lemma includes_occurs (k s : string) : Js.includes k s = true <-> occurs k s.
Proof.
  induction s as [|c s IH]; cbn [Js.includes].
  - rewrite orb_false_r, prefix_iff. split.
    + intros [post H]. now exists EmptyString, post.
    + intros [[|d pre] [post H]]; [now exists post | discriminate].
  - rewrite orb_true_iff, prefix_iff, IH. split.
    + intros [[post H]|[pre [post H]]].
      * now exists EmptyString, post.
      * exists (String c pre), post. simpl. now rewrite H.
    + intros [[|d pre] [post H]].
      * left. now exists post.
      * right. injection H as _ H. now exists pre, post.
Qed.

Lemma test_mentions (words : list string) (s : string) :
  Js.test words s = true <-> mentions words s.
Proof.
  unfold Js.test, mentions. rewrite existsb_exists.
  split; intros [k [I H]]; exists k; split; trivial; now apply includes_occurs.
Qed.

Lemma test_not_mentions (words : list string) (s : string) :
  Js.test words s = false <-> ~ mentions words s.
Proof. rewrite <- test_mentions. now destruct (Js.test words s). Qed.

Lemma test_cons (k : string) (words : list string) (s : string) :
  Js.test (k :: words) s = Js.test [k] s || Js.test words s.
Proof. unfold Js.test. simpl. now rewrite orb_false_r. Qed.

(** Lower-casing keeps the occurrences of a word that is already in lower
    case. *)
Lemma occurs_toLowerCase (k s : string) :
  Js.toLowerCase k = k -> occurs k s -> occurs k (Js.toLowerCase s).
Proof.
  intros E [pre [post ->]]. exists (Js.toLowerCase pre), (Js.toLowerCase post).
  unfold Js.toLowerCase in *. now rewrite !map_append, E.
Qed.

(* ------------------------------------------------------------------ *)
(** ** Prompt classifier *)

(** C2. [guessType] returns one artifact type by first match: a prompt whose
    lower-cased text mentions "function" or one of the function words is a
    function whatever else it mentions; otherwise the component words, then
    the api words, then the script words decide, and a prompt mentioning none
    of them is a function.  In particular a prompt containing both
    "function" and "react" is a function. *)
Theorem guessType_first_match_wins (prompt : string) :
  let p := Js.toLowerCase prompt in
  let fn := mentions ("function" :: functionWords) p in
  let comp := mentions componentWords p in
  let api := mentions apiWords p in
  let script := mentions scriptWords p in
  (fn -> guessType prompt = TyFunction) /\
  (~ fn -> comp -> guessType prompt = TyComponent) /\
  (~ fn -> ~ comp -> api -> guessType prompt = TyApi) /\
  (~ fn -> ~ comp -> ~ api -> script -> guessType prompt = TyScript) /\
  (~ fn -> ~ comp -> ~ api -> ~ script -> guessType prompt = TyFunction) /\
  (occurs "function" prompt -> occurs "react" prompt -> guessType prompt = TyFunction).
Proof.
  intros p fn comp api script.
  assert (Hfn : fn -> guessType prompt = TyFunction).
  { intros H. apply test_mentions in H. rewrite test_cons in H.
    unfold guessType. fold p. now rewrite H. }
  assert (Hnf : ~ fn ->
            Js.test ["function"] p || Js.test functionWords p = false).
  { intros H. apply test_not_mentions in H. now rewrite test_cons in H. }
  repeat split.
  - exact Hfn.
  - intros F C. apply test_mentions in C.
    unfold guessType. fold p. now rewrite (Hnf F), C.
  - intros F C A. apply test_not_mentions in C. apply test_mentions in A.
    unfold guessType. fold p. now rewrite (Hnf F), C, A.
  - intros F C A S. apply test_not_mentions in C, A. apply test_mentions in S.
    unfold guessType. fold p. now rewrite (Hnf F), C, A, S.
  - intros F C A S. apply test_not_mentions in C, A, S.
    unfold guessType. fold p. now rewrite (Hnf F), C, A, S.
  - intros F _. apply Hfn. exists "function". split; [now left|].
    now apply occurs_toLowerCase.
Qed.

Lemma guessType_first_match_wins_witness :
  guessType "a react widget with a helper function" = TyFunction /\
  guessType "find the React component" = TyFunction /\
  guessType "a React widget" = TyComponent /\
  guessType "an Express endpoint" = TyApi /\
  guessType "a small CLI" = TyScript /\
  guessType "sort numbers" = TyFunction.
Proof.
  refine (conj _ (conj _ (conj _ (conj _ (conj _ _))))).
  - destruct (guessType_first_match_wins "a react widget with a helper function")
      as (_ & _ & _ & _ & _ & H).
    apply H.
    + exists "a react widget with a helper ", EmptyString. reflexivity.
    + exists "a ", " widget with a helper function". reflexivity.
  - destruct (guessType_first_match_wins "find the React component")
      as (H & _).
    apply H. apply test_mentions. reflexivity.
  - destruct (guessType_first_match_wins "a React widget")
      as (_ & H & _).
    apply H.
    + apply test_not_mentions. reflexivity.
    + apply test_mentions. reflexivity.
  - destruct (guessType_first_match_wins "an Express endpoint")
      as (_ & _ & H & _).
    apply H.
    + apply test_not_mentions. reflexivity.
    + apply test_not_mentions. reflexivity.
    + apply test_mentions. reflexivity.
  - destruct (guessType_first_match_wins "a small CLI")
      as (_ & _ & _ & H & _).
    apply H.
    + apply test_not_mentions. reflexivity.
    + apply test_not_mentions. reflexivity.
    + apply test_not_mentions. reflexivity.
    + apply test_mentions. reflexivity.
  - destruct (guessType_first_match_wins "sort numbers")
      as (_ & _ & _ & _ & H & _).
    apply H; apply test_not_mentions; reflexivity.
Defined.

(* ------------------------------------------------------------------ *)
(** ** Plan generator *)

(** C4. For every prompt, artifact type and name, [makePlan] returns eight
    steps in a fixed order: steps 1-3 and 5-8 are fixed texts (step 1 is
    "Restate goal: " followed by the prompt) and step 4 is the one step of
    the artifact type, which depends on nothing else. *)
Theorem makePlan_eight_steps (prompt name : string) (type : ArtifactType) :
  makePlan prompt type name =
    ["Restate goal: " ++ prompt;
     "Identify inputs and outputs.";
     "List edge cases and constraints.";
     typeStep type;
     "Outline algorithm in small steps.";
     "Write code with clear comments.";
     "Add basic tests or examples.";
     "Validate on edge cases."]
  /\ List.length (makePlan prompt type name) = 8.
Proof. destruct type; split; reflexivity. Qed.

(* ------------------------------------------------------------------ *)
(** ** Template selector *)

Lemma lines_header (a name h : string) (rest : list string) :
  lines ((a ++ name ++ h) :: rest) = a ++ name ++ lines (h :: rest).
Proof. cbn [lines]. now rewrite !append_assoc. Qed.

(** No two of the function templates that [reverseTemplate] competes with
    produce its text, whatever the name. *)
Lemma reverseTemplate_distinct (name : string) :
  primeTemplate name <> reverseTemplate name /\
  fibonacciTemplate name <> reverseTemplate name /\
  factorialTemplate name <> reverseTemplate name /\
  debounceTemplate name <> reverseTemplate name /\
  stubTemplate name <> reverseTemplate name.
Proof.
  unfold primeTemplate, fibonacciTemplate, factorialTemplate, reverseTemplate,
    debounceTemplate, stubTemplate.
  rewrite !lines_header.
  repeat split; intros H; do 2 apply append_inv_head in H; discriminate H.
Qed.

(** C5. For a prompt classified as a function the code is
    [codeTemplateFunction] at the inferred name, and that selector tests the
    lower-cased prompt in the order prime, fibonacci|fib, factorial,
    reverse-and-string, debounce, the first match deciding.  The reversal
    template is produced only when both "reverse" and "string" occur, and a
    prompt matching no rule gets the stub that throws "Not implemented". *)
Theorem codeTemplateFunction_priority (name prompt : string) :
  let p := Js.toLowerCase prompt in
  let c := codeTemplateFunction name prompt in
  let prime := occurs "prime" p in
  let fib := mentions ["fibonacci"; "fib"] p in
  let fact := occurs "factorial" p in
  let rev := occurs "reverse" p /\ occurs "string" p in
  let deb := occurs "debounce" p in
  (guessType prompt = TyFunction ->
   code (makeOfflinePlanAndCode prompt)
   = codeTemplateFunction (guessName prompt TyFunction) prompt) /\
  (prime -> c = primeTemplate name) /\
  (~ prime -> fib -> c = fibonacciTemplate name) /\
  (~ prime -> ~ fib -> fact -> c = factorialTemplate name) /\
  (~ prime -> ~ fib -> ~ fact -> rev -> c = reverseTemplate name) /\
  (~ prime -> ~ fib -> ~ fact -> ~ rev -> deb -> c = debounceTemplate name) /\
  (~ prime -> ~ fib -> ~ fact -> ~ rev -> ~ deb -> c = stubTemplate name) /\
  (c = reverseTemplate name -> rev) /\
  occurs "throw new Error('Not implemented');" (stubTemplate name).
Proof.
  intros p c prime fib fact rev deb.
  assert (Eprime : Js.test ["prime"] p = true <-> prime).
  { rewrite test_mentions. split.
    - intros [k [[<-|[]] H]]. exact H.
    - intros H. exists "prime". split; [now left | exact H]. }
  assert (Efib : Js.test ["fibonacci"; "fib"] p = true <-> fib)
    by apply test_mentions.
  assert (Efact : Js.test ["factorial"] p = true <-> fact).
  { rewrite test_mentions. split.
    - intros [k [[<-|[]] H]]. exact H.
    - intros H. exists "factorial". split; [now left | exact H]. }
  assert (Erev : Js.test ["reverse"] p && Js.test ["string"] p = true <-> rev).
  { rewrite andb_true_iff, !test_mentions. split.
    - intros [[k [[<-|[]] H]] [k' [[<-|[]] H']]]. now split.
    - intros [H H']. split; [exists "reverse" | exists "string"]; split;
        trivial; now left. }
  assert (Edeb : Js.test ["debounce"] p = true <-> deb).
  { rewrite test_mentions. split.
    - intros [k [[<-|[]] H]]. exact H.
    - intros H. exists "debounce". split; [now left | exact H]. }
  destruct (reverseTemplate_distinct name) as (D1 & D2 & D3 & D4 & D5).
  split.
  { intros G. unfold makeOfflinePlanAndCode. now rewrite G. }
  assert (Hstub : occurs "throw new Error('Not implemented');" (stubTemplate name)).
  { unfold stubTemplate. rewrite lines_header.
    exists ("export function " ++ name ++ "(/* params */): any {" ++ Js.nl ++ "  "),
           (Js.nl ++ "}" ++ Js.nl).
    now rewrite !append_assoc. }
  subst c. unfold codeTemplateFunction. fold p.
  destruct (Js.test ["prime"] p);
  destruct (Js.test ["fibonacci"; "fib"] p);
  destruct (Js.test ["factorial"] p);
  destruct (Js.test ["reverse"] p && Js.test ["string"] p);
  destruct (Js.test ["debounce"] p);
  repeat match goal with
         | E : true = true <-> _ |- _ => apply proj1 in E; specialize (E eq_refl)
         | E : false = true <-> ?P |- _ =>
             assert (~ P) by (intros HP; apply E in HP; discriminate); clear E
         end;
  repeat match goal with |- _ /\ _ => split end;
  try exact Hstub; intros; try reflexivity; tauto.
Qed.

(** Occurrence facts about concrete strings, by running the tests. *)
Ltac by_test :=
  lazymatch goal with
  | |- _ /\ _ => split; by_test
  | |- occurs _ _ => apply includes_occurs; reflexivity
  | |- mentions _ _ => apply test_mentions; reflexivity
  | |- ~ occurs _ _ =>
      let H := fresh in intros H; apply includes_occurs in H; discriminate H
  | |- ~ mentions _ _ =>
      let H := fresh in intros H; apply test_mentions in H; discriminate H
  | |- ~ (occurs _ _ /\ occurs _ _) =>
      let H := fresh in
      let H' := fresh in
      intros [H H']; apply includes_occurs in H, H';
      first [discriminate H | discriminate H']
  end.

Lemma codeTemplateFunction_priority_witness :
  code (makeOfflinePlanAndCode "Is 7 PRIME?")
  = codeTemplateFunction (guessName "Is 7 PRIME?" TyFunction) "Is 7 PRIME?" /\
  codeTemplateFunction "f" "prime factorial" = primeTemplate "f" /\
  codeTemplateFunction "f" "fib via factorial" = fibonacciTemplate "f" /\
  codeTemplateFunction "f" "factorial, then reverse a string" = factorialTemplate "f" /\
  codeTemplateFunction "f" "Reverse a String and debounce" = reverseTemplate "f" /\
  codeTemplateFunction "f" "reverse a list, debounce it" = debounceTemplate "f" /\
  codeTemplateFunction "f" "reverse a list" = stubTemplate "f" /\
  (occurs "reverse" "reverse this string" /\ occurs "string" "reverse this string").
Proof.
  refine (conj _ (conj _ (conj _ (conj _ (conj _ (conj _ (conj _ _))))))).
  - destruct (codeTemplateFunction_priority "f" "Is 7 PRIME?") as (H & _).
    apply H. reflexivity.
  - destruct (codeTemplateFunction_priority "f" "prime factorial")
      as (_ & H & _).
    apply H; by_test.
  - destruct (codeTemplateFunction_priority "f" "fib via factorial")
      as (_ & _ & H & _).
    apply H; by_test.
  - destruct (codeTemplateFunction_priority "f" "factorial, then reverse a string")
      as (_ & _ & _ & H & _).
    apply H; by_test.
  - destruct (codeTemplateFunction_priority "f" "Reverse a String and debounce")
      as (_ & _ & _ & _ & H & _).
    apply H; by_test.
  - destruct (codeTemplateFunction_priority "f" "reverse a list, debounce it")
      as (_ & _ & _ & _ & _ & H & _).
    apply H; by_test.
  - destruct (codeTemplateFunction_priority "f" "reverse a list")
      as (_ & _ & _ & _ & _ & _ & H & _).
    apply H; by_test.
  - destruct (codeTemplateFunction_priority "f" "reverse this string")
      as (_ & _ & _ & _ & _ & _ & _ & H & _).
    apply H. reflexivity.
Defined.

(* ------------------------------------------------------------------ *)
(** ** The documented example *)

(** C1.  The offline path on the prompt of the README's example.  The plan
    is the documented one: eight steps, the first restating the prompt.  The
    code is the trial-division template, but the function it exports is
    named "to": the pattern "function IDENT" of [guessName] matches
    "function to" in the prompt before the keyword "prime" is looked at, so
    the text nowhere mentions "isPrime". *)
Theorem offline_prime_example :
  let prompt := "write a function to check prime numbers" in
  let r := makeOfflinePlanAndCode prompt in
  List.length (plan r) = 8 /\
  hd_error (plan r) = Some "Restate goal: write a function to check prime numbers" /\
  guessType prompt = TyFunction /\
  exec matchFunctionAt prompt = Some "to" /\
  guessName prompt TyFunction = "to" /\
  code r = primeTemplate "to" /\
  code r <> primeTemplate "isPrime" /\
  Js.includes "isPrime" (code r) = false /\
  Js.startsWith "export function to(n: number): boolean {" (code r) = true.
Proof.
  cbv zeta.
  repeat match goal with |- _ /\ _ => split end;
    try (vm_compute; reflexivity).
  vm_compute. discriminate.
Qed.

(* ------------------------------------------------------------------ *)
(** ** Name inferencer: what the two [exec] patterns capture *)

Section Scanning.

Variable f : ascii -> bool.

Lemma takeWhile_dropWhile (s : string) : s = Js.takeWhile f s ++ Js.dropWhile f s.
Proof.
  induction s as [|c s IH]; simpl; [reflexivity|].
  destruct (f c); simpl; [now rewrite <- IH | reflexivity].
Qed.

Lemma all_takeWhile (s : string) : Js.all f (Js.takeWhile f s) = true.
Proof.
  induction s as [|c s IH]; simpl; [reflexivity|].
  destruct (f c) eqn:E; simpl; [now rewrite E | reflexivity].
Qed.

(** What is left after the longest run does not start with a character of
    the run. *)
Lemma dropWhile_stops (s : string) :
  match Js.dropWhile f s with
  | String c _ => f c = false
  | EmptyString => True
  end.
Proof.
  induction s as [|c s IH]; simpl; [exact I|].
  destruct (f c) eqn:E; [exact IH | exact E].
Qed.

Lemma dropWhile_run (run post : string) (d : ascii) :
  Js.all f run = true -> f d = false ->
  Js.dropWhile f (run ++ String d post) = String d post.
Proof.
  intros A D. induction run as [|c run IH]; simpl in *.
  - now rewrite D.
  - apply andb_true_iff in A as [-> A]. now apply IH.
Qed.

Lemma takeWhile_run (run post : string) :
  Js.all f run = true ->
  match post with String c _ => f c = false | EmptyString => True end ->
  Js.takeWhile f (run ++ post) = run.
Proof.
  intros A P. induction run as [|c run IH]; simpl in *.
  - destruct post as [|d post]; simpl; [reflexivity | now rewrite P].
  - apply andb_true_iff in A as [-> A]. now rewrite IH.
Qed.

End Scanning.

Lemma identStart_not_space (c : ascii) :
  Js.isIdentStart c = true -> Js.isSpace c = false.
Proof.
  destruct c as [[] [] [] [] [] [] [] []]; vm_compute; intros H;
    first [reflexivity | discriminate H].
Qed.

(** *** One attempt at a position *)

Lemma matchFunctionAt_word (s : string) :
  matchFunctionAt s = matchWordAt "function" s.
Proof. reflexivity. Qed.

Lemma matchNamedAt_word (s : string) :
  matchNamedAt s =
    match matchWordAt "called" s with
    | Some id => Some id
    | None => matchWordAt "named" s
    end.
Proof. reflexivity. Qed.

Lemma matchSpacesIdent_sound (s id : string) :
  matchSpacesIdent s = Some id ->
  exists ws post, s = ws ++ id ++ post /\ spaces ws /\ identifier id /\ identStops post.
Proof.
  unfold matchSpacesIdent. destruct s as [|c s]; [discriminate|].
  destruct (Js.isSpace c) eqn:Sc; [|discriminate].
  pose proof (takeWhile_dropWhile Js.isSpace (String c s)) as Split.
  pose proof (all_takeWhile Js.isSpace (String c s)) as Run.
  destruct (Js.dropWhile Js.isSpace (String c s)) as [|d r] eqn:Drop; [discriminate|].
  destruct (Js.isIdentStart d) eqn:Sd; [|discriminate].
  intros [= <-].
  exists (Js.takeWhile Js.isSpace (String c s)), (Js.dropWhile Js.isIdentChar r).
  repeat split.
  - rewrite Split at 1. simpl. do 2 f_equal. apply takeWhile_dropWhile.
  - simpl. rewrite Sc. discriminate.
  - exact Run.
  - exists d, (Js.takeWhile Js.isIdentChar r).
    repeat split; [exact Sd | apply all_takeWhile].
  - apply dropWhile_stops.
Qed.

(** Where some white space and an identifier start the string, the attempt
    succeeds and captures the identifier together with every identifier
    character that follows it. *)
Lemma matchSpacesIdent_complete (ws id post : string) :
  spaces ws -> identifier id ->
  exists more,
    matchSpacesIdent (ws ++ id ++ post) = Some (id ++ more) /\
    (identStops post -> more = EmptyString).
Proof.
  intros [Ne Ws] (d & r & -> & Sd & Ir).
  destruct ws as [|c ws]; [contradiction|]. clear Ne.
  pose proof Ws as Ws'. simpl in Ws'. apply andb_true_iff in Ws' as [Sc _].
  unfold matchSpacesIdent. cbn [append]. rewrite Sc.
  change (String c (ws ++ String d (r ++ post)))
    with (String c ws ++ String d (r ++ post)).
  rewrite dropWhile_run by (trivial; now apply identStart_not_space).
  rewrite Sd.
  pose proof (takeWhile_dropWhile Js.isIdentChar post) as Split.
  exists (Js.takeWhile Js.isIdentChar post). split.
  - simpl. do 2 f_equal.
    rewrite Split at 1. rewrite <- append_assoc.
    apply takeWhile_run.
    + clear - Ir. induction r as [|x r IH]; simpl in *.
      * apply all_takeWhile.
      * apply andb_true_iff in Ir as [-> Ir]. now apply IH.
    + apply dropWhile_stops.
  - intros Stop. destruct post as [|x post]; simpl in *; [reflexivity|].
    now rewrite Stop.
Qed.

Lemma matchWordAt_sound (word s id : string) :
  matchWordAt word s = Some id ->
  exists ws post,
    s = word ++ ws ++ id ++ post /\ spaces ws /\ identifier id /\ identStops post.
Proof.
  unfold matchWordAt. destruct (Js.startsWith word s) eqn:P; [|discriminate].
  apply prefix_iff in P as [tl ->]. rewrite sliceFrom_append.
  intros M. apply matchSpacesIdent_sound in M as (ws & post & -> & H).
  now exists ws, post.
Qed.

Lemma matchWordAt_complete (word ws id post : string) :
  spaces ws -> identifier id ->
  exists more,
    matchWordAt word (word ++ ws ++ id ++ post) = Some (id ++ more) /\
    (identStops post -> more = EmptyString).
Proof.
  intros Ws Id. unfold matchWordAt, Js.startsWith.
  rewrite prefix_append, sliceFrom_append.
  now apply matchSpacesIdent_complete.
Qed.

(** *** The scan over the start positions *)

Section Exec.

Variable words : list string.
Variable matchAt : string -> option string.

Hypothesis matchAt_sound : forall s id,
  matchAt s = Some id ->
  exists w ws post,
    In w words /\ s = w ++ ws ++ id ++ post /\ spaces ws /\ identifier id /\ identStops post.

Hypothesis matchAt_complete : forall w ws id post,
  In w words -> spaces ws -> identifier id ->
  exists id', matchAt (w ++ ws ++ id ++ post) = Some id'.

Lemma exec_first (s id : string) :
  exec matchAt s = Some id ->
  exists pre suf,
    s = pre ++ suf /\ matchAt suf = Some id /\
    forall pre' suf', s = pre' ++ suf' ->
      String.length pre' < String.length pre -> matchAt suf' = None.
Proof.
  induction s as [|c s IH]; cbn [exec].
  - destruct (matchAt EmptyString) eqn:M; [|discriminate].
    intros [= ->]. exists EmptyString, EmptyString. repeat split; trivial.
    simpl. intros; lia.
  - destruct (matchAt (String c s)) eqn:M.
    + intros [= ->]. exists EmptyString, (String c s). repeat split; trivial.
      simpl. intros; lia.
    + intros E. destruct (IH E) as (pre & suf & -> & Msuf & Left).
      exists (String c pre), suf. repeat split; trivial.
      intros [|c' pre'] suf'; simpl; intros Eq L.
      * now subst suf'.
      * injection Eq as _ Eq. apply (Left pre' suf' Eq). lia.
Qed.

Lemma exec_none (s : string) :
  exec matchAt s = None -> forall pre suf, s = pre ++ suf -> matchAt suf = None.
Proof.
  induction s as [|c s IH]; cbn [exec].
  - destruct (matchAt EmptyString) eqn:M; [discriminate|].
    intros _ [|c pre] suf; simpl; intros E; [now subst | discriminate].
  - destruct (matchAt (String c s)) eqn:M; [discriminate|].
    intros E [|c' pre] suf; simpl; intros Eq; [now subst|].
    injection Eq as _ Eq. now apply (IH E pre).
Qed.

Lemma exec_captured (s id : string) :
  exec matchAt s = Some id -> captured words s id.
Proof.
  intros E. destruct (exec_first _ _ E) as (pre & suf & -> & M & Left).
  destruct (matchAt_sound _ _ M) as (w & ws & post & I & -> & Ws & Id & Stop).
  exists pre, w, ws, post.
  refine (conj I (conj eq_refl (conj Ws (conj Id (conj Stop _))))).
  intros pre' id' (w' & ws' & post' & I' & Eq & Ws' & Id').
  destruct (Nat.le_gt_cases (String.length pre) (String.length pre')) as [L|L];
    [exact L|].
  destruct (matchAt_complete w' ws' id' post' I' Ws' Id') as [x Hx].
  specialize (Left _ _ Eq L). congruence.
Qed.

Lemma exec_found (s : string) :
  containsPattern words s -> exists id, exec matchAt s = Some id.
Proof.
  intros (pre & id & w & ws & post & I & -> & Ws & Id).
  destruct (exec matchAt (pre ++ w ++ ws ++ id ++ post)) as [x|] eqn:E;
    [now exists x|].
  pose proof (exec_none _ E pre _ eq_refl) as N.
  destruct (matchAt_complete w ws id post I Ws Id) as [x Hx]. congruence.
Qed.

Lemma exec_not_found (s : string) :
  ~ containsPattern words s -> exec matchAt s = None.
Proof.
  intros N. destruct (exec matchAt s) as [id|] eqn:E; [|reflexivity].
  exfalso. apply N.
  destruct (exec_captured _ _ E) as (pre & w & ws & post & I & Eq & Ws & Id & _).
  exists pre, id, w, ws, post. exact (conj I (conj Eq (conj Ws Id))).
Qed.

(** The capture is determined by the string: it is what the scan returns. *)
Lemma captured_exec (s id : string) :
  (forall w ws id post,
     In w words -> spaces ws -> identifier id -> identStops post ->
     matchAt (w ++ ws ++ id ++ post) = Some id) ->
  captured words s id -> exec matchAt s = Some id.
Proof.
  intros Exact (pre & w & ws & post & I & -> & Ws & Id & Stop & Left).
  pose proof (Exact w ws id post I Ws Id Stop) as M.
  destruct (exec_found (pre ++ w ++ ws ++ id ++ post)) as [id0 E].
  { exists pre, id, w, ws, post. exact (conj I (conj eq_refl (conj Ws Id))). }
  rewrite E. f_equal.
  destruct (exec_first _ _ E) as (pre0 & suf0 & Eq & M0 & Left0).
  destruct (matchAt_sound _ _ M0) as (w0 & ws0 & post0 & I0 & -> & Ws0 & Id0 & _).
  assert (L : String.length pre <= String.length pre0).
  { apply (Left pre0 id0). exists w0, ws0, post0.
    exact (conj I0 (conj Eq (conj Ws0 Id0))). }
  destruct (Nat.eq_dec (String.length pre) (String.length pre0)) as [Len|Ne].
  - destruct (append_eq_length _ _ _ _ Eq Len) as [_ Suf].
    rewrite Suf in M. congruence.
  - assert (Lt : String.length pre < String.length pre0) by lia.
    specialize (Left0 pre _ eq_refl Lt). congruence.
Qed.

End Exec.

Lemma matchFunctionAt_sound (s id : string) :
  matchFunctionAt s = Some id ->
  exists w ws post,
    In w ["function"] /\ s = w ++ ws ++ id ++ post /\ spaces ws /\ identifier id /\
    identStops post.
Proof.
  rewrite matchFunctionAt_word. intros M.
  apply matchWordAt_sound in M as (ws & post & H).
  exists "function", ws, post. split; [now left | exact H].
Qed.

Lemma matchFunctionAt_complete (w ws id post : string) :
  In w ["function"] -> spaces ws -> identifier id ->
  exists id', matchFunctionAt (w ++ ws ++ id ++ post) = Some id'.
Proof.
  intros [<-|[]] Ws Id. rewrite matchFunctionAt_word.
  destruct (matchWordAt_complete "function" ws id post Ws Id) as (more & M & _).
  now exists (id ++ more).
Qed.

Lemma matchNamedAt_sound (s id : string) :
  matchNamedAt s = Some id ->
  exists w ws post,
    In w ["called"; "named"] /\ s = w ++ ws ++ id ++ post /\ spaces ws /\
    identifier id /\ identStops post.
Proof.
  rewrite matchNamedAt_word.
  destruct (matchWordAt "called" s) as [x|] eqn:C.
  - intros [= ->]. apply matchWordAt_sound in C as (ws & post & H).
    exists "called", ws, post. split; [now left | exact H].
  - intros M. apply matchWordAt_sound in M as (ws & post & H).
    exists "named", ws, post. split; [now right; left | exact H].
Qed.

Lemma matchNamedAt_complete (w ws id post : string) :
  In w ["called"; "named"] -> spaces ws -> identifier id ->
  exists id', matchNamedAt (w ++ ws ++ id ++ post) = Some id'.
Proof.
  intros [<-|[<-|[]]] Ws Id; rewrite matchNamedAt_word.
  - destruct (matchWordAt_complete "called" ws id post Ws Id) as (more & -> & _).
    now exists (id ++ more).
  - destruct (matchWordAt "called" ("named" ++ ws ++ id ++ post)) as [x|];
      [now exists x|].
    destruct (matchWordAt_complete "named" ws id post Ws Id) as (more & M & _).
    now exists (id ++ more).
Qed.

(** The prompt has an explicit name exactly when the scan finds one. *)
Lemma containsPattern_function (s : string) :
  containsPattern ["function"] s <-> exists id, exec matchFunctionAt s = Some id.
Proof.
  split.
  - apply exec_found, matchFunctionAt_complete.
  - intros [id E].
    destruct (exec_captured _ _ matchFunctionAt_sound matchFunctionAt_complete _ _ E)
      as (pre & w & ws & post & I & Eq & Ws & Id & _).
    exists pre, id, w, ws, post. exact (conj I (conj Eq (conj Ws Id))).
Qed.

Lemma containsPattern_named (s : string) :
  containsPattern ["called"; "named"] s <-> exists id, exec matchNamedAt s = Some id.
Proof.
  split.
  - apply exec_found, matchNamedAt_complete.
  - intros [id E].
    destruct (exec_captured _ _ matchNamedAt_sound matchNamedAt_complete _ _ E)
      as (pre & w & ws & post & I & Eq & Ws & Id & _).
    exists pre, id, w, ws, post. exact (conj I (conj Eq (conj Ws Id))).
Qed.

Lemma captured_function (s id : string) :
  captured ["function"] s id <-> exec matchFunctionAt s = Some id.
Proof.
  split.
  - apply (captured_exec _ _ matchFunctionAt_sound matchFunctionAt_complete).
    intros w ws x post [<-|[]] Ws Id Stop. rewrite matchFunctionAt_word.
    destruct (matchWordAt_complete "function" ws x post Ws Id) as (more & M & E).
    now rewrite M, (E Stop), append_nil_r.
  - apply (exec_captured _ _ matchFunctionAt_sound matchFunctionAt_complete).
Qed.

Lemma captured_named (s id : string) :
  captured ["called"; "named"] s id <-> exec matchNamedAt s = Some id.
Proof.
  split.
  - apply (captured_exec _ _ matchNamedAt_sound matchNamedAt_complete).
    intros w ws x post [<-|[<-|[]]] Ws Id Stop; rewrite matchNamedAt_word.
    + destruct (matchWordAt_complete "called" ws x post Ws Id) as (more & M & E).
      now rewrite M, (E Stop), append_nil_r.
    + destruct (matchWordAt_complete "named" ws x post Ws Id) as (more & M & E).
      rewrite M, (E Stop), append_nil_r. reflexivity.
  - apply (exec_captured _ _ matchNamedAt_sound matchNamedAt_complete).
Qed.

(** A pattern captures at most one identifier in a string. *)
Lemma captured_unique (s a b : string) :
  (captured ["function"] s a -> captured ["function"] s b -> a = b) /\
  (captured ["called"; "named"] s a -> captured ["called"; "named"] s b -> a = b).
Proof.
  rewrite !captured_function, !captured_named. split; congruence.
Qed.

Lemma test_single (k s : string) : Js.test [k] s = true <-> occurs k s.
Proof.
  rewrite test_mentions. split.
  - intros [x [[<-|[]] H]]. exact H.
  - intros H. exists k. split; [now left | exact H].
Qed.

(** C3. An explicit name wins.  When the prompt contains "function IDENT",
    [guessName] returns the identifier captured by that pattern; otherwise,
    when it contains "called IDENT" or "named IDENT", the identifier
    captured by that one; both whatever keywords the prompt mentions.  Only
    without an explicit name do the keywords of the lower-cased prompt decide,
    in the order reverse, fibonacci|fib, factorial, debounce, throttle,
    prime, and only when none of them occurs is the camelCase fallback
    returned. *)
Theorem guessName_precedence (prompt : string) (type : ArtifactType) :
  let p := Js.toLowerCase prompt in
  let camel := Js.sliceTo 24 (toCamelCase prompt) in
  let base :=
    if Js.isEmpty camel
    then (if ArtifactType_eqb type TyComponent then "MyComponent" else "doWork")
    else camel in
  let explicitFunction := containsPattern ["function"] prompt in
  let explicitNamed := containsPattern ["called"; "named"] prompt in
  let rev := occurs "reverse" p in
  let fib := mentions ["fibonacci"; "fib"] p in
  let fact := occurs "factorial" p in
  let deb := occurs "debounce" p in
  let thr := occurs "throttle" p in
  let prime := occurs "prime" p in
  (explicitFunction ->
   exists id, captured ["function"] prompt id /\ guessName prompt type = id) /\
  (~ explicitFunction -> explicitNamed ->
   exists id, captured ["called"; "named"] prompt id /\ guessName prompt type = id) /\
  (~ explicitFunction -> ~ explicitNamed ->
   (rev -> guessName prompt type = "reverseString") /\
   (~ rev -> fib -> guessName prompt type = "fibonacci") /\
   (~ rev -> ~ fib -> fact -> guessName prompt type = "factorial") /\
   (~ rev -> ~ fib -> ~ fact -> deb -> guessName prompt type = "debounce") /\
   (~ rev -> ~ fib -> ~ fact -> ~ deb -> thr -> guessName prompt type = "throttle") /\
   (~ rev -> ~ fib -> ~ fact -> ~ deb -> ~ thr -> prime ->
    guessName prompt type = "isPrime") /\
   (~ rev -> ~ fib -> ~ fact -> ~ deb -> ~ thr -> ~ prime ->
    guessName prompt type = base)).
Proof.
  intros p camel base explicitFunction explicitNamed rev fib fact deb thr prime.
  refine (conj _ (conj _ _)).
  - intros F. apply containsPattern_function in F as [id E].
    exists id. split.
    + exact (exec_captured _ _ matchFunctionAt_sound matchFunctionAt_complete _ _ E).
    + unfold guessName. now rewrite E.
  - intros NF N.
    apply (exec_not_found _ _ matchFunctionAt_sound matchFunctionAt_complete) in NF.
    apply containsPattern_named in N as [id E].
    exists id. split.
    + exact (exec_captured _ _ matchNamedAt_sound matchNamedAt_complete _ _ E).
    + unfold guessName. now rewrite NF, E.
  - intros NF NN.
    apply (exec_not_found _ _ matchFunctionAt_sound matchFunctionAt_complete) in NF.
    apply (exec_not_found _ _ matchNamedAt_sound matchNamedAt_complete) in NN.
    unfold guessName. rewrite NF, NN. fold p. fold camel. fold base.
    pose proof (test_single "reverse" p) as Erev.
    pose proof (test_mentions ["fibonacci"; "fib"] p) as Efib.
    pose proof (test_single "factorial" p) as Efact.
    pose proof (test_single "debounce" p) as Edeb.
    pose proof (test_single "throttle" p) as Ethr.
    pose proof (test_single "prime" p) as Eprime.
    fold rev in Erev. fold fib in Efib. fold fact in Efact. fold deb in Edeb.
    fold thr in Ethr. fold prime in Eprime.
    destruct (Js.test ["reverse"] p);
    destruct (Js.test ["fibonacci"; "fib"] p);
    destruct (Js.test ["factorial"] p);
    destruct (Js.test ["debounce"] p);
    destruct (Js.test ["throttle"] p);
    destruct (Js.test ["prime"] p);
    repeat match goal with
           | E : true = true <-> _ |- _ => apply proj1 in E; specialize (E eq_refl)
           | E : false = true <-> ?P |- _ =>
               assert (~ P) by (intros HP; apply E in HP; discriminate); clear E
           end;
    repeat match goal with |- _ /\ _ => split end;
    intros; try reflexivity; tauto.
Qed.

(** A concrete prompt without the explicit pattern, by running the scan. *)
Ltac no_pattern :=
  let F := fresh in
  let x := fresh in
  intros F;
  first [apply containsPattern_function in F as [x F]
        | apply containsPattern_named in F as [x F]];
  vm_compute in F; discriminate F.

Lemma guessName_precedence_witness :
  guessName "a function reverseWords to reverse, called rw" TyFunction = "reverseWords" /\
  guessName "a prime sieve named sieve_2 please" TyFunction = "sieve_2" /\
  guessName "Reverse the fib list" TyFunction = "reverseString" /\
  guessName "fib of a prime factorial" TyFunction = "fibonacci" /\
  guessName "prime factorial" TyFunction = "factorial" /\
  guessName "debounce or throttle" TyFunction = "debounce" /\
  guessName "throttle a prime" TyFunction = "throttle" /\
  guessName "is it Prime" TyFunction = "isPrime" /\
  guessName "sort the numbers" TyFunction = "sortTheNumbers".
Proof.
  refine (conj _ (conj _ (conj _ (conj _ (conj _ (conj _ (conj _ (conj _ _)))))))).
  - destruct (guessName_precedence "a function reverseWords to reverse, called rw" TyFunction)
      as (H & _).
    destruct H as (id & C & E).
    + apply containsPattern_function. now exists "reverseWords".
    + rewrite E. apply captured_function in C. vm_compute in C. congruence.
  - destruct (guessName_precedence "a prime sieve named sieve_2 please" TyFunction)
      as (_ & H & _).
    destruct H as (id & C & E).
    + no_pattern.
    + apply containsPattern_named. now exists "sieve_2".
    + rewrite E. apply captured_named in C. vm_compute in C. congruence.
  - destruct (guessName_precedence "Reverse the fib list" TyFunction) as (_ & _ & H).
    destruct H as (H & _); [no_pattern | no_pattern |].
    apply H; by_test.
  - destruct (guessName_precedence "fib of a prime factorial" TyFunction) as (_ & _ & H).
    destruct H as (_ & H & _); [no_pattern | no_pattern |].
    apply H; by_test.
  - destruct (guessName_precedence "prime factorial" TyFunction) as (_ & _ & H).
    destruct H as (_ & _ & H & _); [no_pattern | no_pattern |].
    apply H; by_test.
  - destruct (guessName_precedence "debounce or throttle" TyFunction) as (_ & _ & H).
    destruct H as (_ & _ & _ & H & _); [no_pattern | no_pattern |].
    apply H; by_test.
  - destruct (guessName_precedence "throttle a prime" TyFunction) as (_ & _ & H).
    destruct H as (_ & _ & _ & _ & H & _); [no_pattern | no_pattern |].
    apply H; by_test.
  - destruct (guessName_precedence "is it Prime" TyFunction) as (_ & _ & H).
    destruct H as (_ & _ & _ & _ & _ & H & _); [no_pattern | no_pattern |].
    apply H; by_test.
  - destruct (guessName_precedence "sort the numbers" TyFunction) as (_ & _ & H).
    destruct H as (_ & _ & _ & _ & _ & _ & H); [no_pattern | no_pattern |].
    apply H; by_test.
Defined.

(* ------------------------------------------------------------------ *)
(** ** Argument parser *)

Lemma parseLoop_step (flags : Flags) (rest : list string) (arg : string)
  (tl : list string) :
  parseLoop flags rest (arg :: tl) =
    let '(flags', rest', took) := parseStep flags rest arg (hd_error tl) in
    parseLoop flags' rest' (if took then List.tl tl else tl).
Proof.
  cbn [parseLoop]. unfold parseStep.
  repeat match goal with
         | |- context [if ?b then _ else _] => destruct b eqn:?; try reflexivity
         end.
  destruct tl; [|reflexivity].
  match goal with
  | H : _ && outOperand _ = true |- _ =>
      simpl in H; rewrite andb_false_r in H; discriminate H
  end.
Qed.

(** A token that is not taken as an operand leaves the round independent of
    it. *)
Lemma parseStep_no_operand (flags : Flags) (rest : list string) (arg : string)
  (next : option string) :
  (arg =? "--out") && outOperand next = false ->
  parseStep flags rest arg next = parseStep flags rest arg None.
Proof.
  intros H. unfold parseStep. rewrite H. simpl outOperand.
  now rewrite andb_false_r.
Qed.

Lemma parseStep_took (flags : Flags) (rest : list string) (arg : string)
  (next : option string) :
  snd (parseStep flags rest arg next) = true ->
  (arg =? "--out") && outOperand next = true.
Proof.
  unfold parseStep.
  repeat match goal with
         | |- context [if ?b then _ else _] => destruct b eqn:?; try discriminate
         end.
  reflexivity.
Qed.

(** The loop can be cut in front of any token that the token before it does
    not take as its operand: either that token is not [--out], or the token
    itself is no operand. *)
Lemma parseLoop_app (pre : list string) (tok : string) (post : list string)
  (flags : Flags) (rest : list string) :
  last pre EmptyString <> "--out" \/ outOperand (Some tok) = false ->
  parseLoop flags rest (pre ++ tok :: post) =
    parseLoop (fst (parseLoop flags rest pre)) (snd (parseLoop flags rest pre))
      (tok :: post).
Proof.
  remember (List.length pre) as n eqn:Len.
  revert pre Len flags rest.
  induction n as [n IH] using lt_wf_ind.
  intros [|a pre] Len flags rest Cut; [reflexivity|].
  rewrite <- app_comm_cons.
  rewrite (parseLoop_step flags rest a (pre ++ tok :: post)),
    (parseLoop_step flags rest a pre).
  destruct pre as [|b pre].
  - (* [a] is the last token before the cut *)
    simpl hd_error. rewrite (parseStep_no_operand flags rest a (Some tok)).
    + destruct (parseStep flags rest a None) as [[f r] took] eqn:S.
      assert (took = false) as ->.
      { destruct took; [|reflexivity].
        pose proof (parseStep_took flags rest a None) as T.
        rewrite S in T. specialize (T eq_refl).
        simpl in T. now rewrite andb_false_r in T. }
      reflexivity.
    + destruct Cut as [N|O].
      * simpl in N. apply eqb_neq in N. now rewrite N.
      * rewrite O. apply andb_false_r.
  - simpl hd_error.
    destruct (parseStep flags rest a (Some b)) as [[f r] took].
    destruct took.
    + simpl List.tl. apply (IH (List.length pre)); [simpl in Len; lia | reflexivity |].
      destruct Cut as [N|O]; [|now right].
      destruct pre as [|c pre]; [left; discriminate | left; exact N].
    + change ((b :: pre) ++ tok :: post)%list with (b :: pre ++ tok :: post)%list.
      rewrite (app_comm_cons pre (tok :: post) b).
      apply (IH (List.length (b :: pre))); [simpl in *; lia | reflexivity |].
      destruct Cut as [N|O]; [left; exact N | now right].
Qed.

(** A token starting with "--" is never an operand. *)
Lemma outOperand_dashes (tok : string) :
  Js.startsWith "--" tok = true -> outOperand (Some tok) = false.
Proof. intros H. simpl. rewrite H. apply andb_false_r. Qed.

(** The prompt tokens only grow, at the end. *)
Lemma parseLoop_rest_grows (argv : list string) (flags : Flags) (rest : list string) :
  exists added, snd (parseLoop flags rest argv) = (rest ++ added)%list.
Proof.
  remember (List.length argv) as n eqn:Len.
  revert argv Len flags rest.
  induction n as [n IH] using lt_wf_ind.
  intros [|a tl] Len flags rest.
  - exists []. simpl. now rewrite app_nil_r.
  - rewrite parseLoop_step.
    destruct (parseStep flags rest a (hd_error tl)) as [[f r] took] eqn:S.
    assert (G : exists one, r = (rest ++ one)%list).
    { revert S. unfold parseStep.
      repeat match goal with
             | |- context [if ?b then _ else _] => destruct b
             end;
      try destruct (hd_error tl);
      intros [= <- <- <-];
      first [now exists [a] | exists []; now rewrite app_nil_r]. }
    destruct G as [one ->].
    assert (Lt : List.length (if took then List.tl tl else tl) < n)
      by (destruct took; destruct tl; simpl in *; lia).
    destruct (IH _ Lt _ eq_refl f (rest ++ one)%list) as [more E].
    exists (one ++ more)%list. now rewrite E, app_assoc.
Qed.

(** Once an output path is set, the rest of the loop keeps one set. *)
Lemma parseLoop_out_stays (argv : list string) (flags : Flags) (rest : list string) :
  out flags <> None -> out (fst (parseLoop flags rest argv)) <> None.
Proof.
  remember (List.length argv) as n eqn:Len.
  revert argv Len flags rest.
  induction n as [n IH] using lt_wf_ind.
  intros [|a tl] Len flags rest Has; [exact Has|].
  rewrite parseLoop_step.
  destruct (parseStep flags rest a (hd_error tl)) as [[f r] took] eqn:S.
  assert (Lt : List.length (if took then List.tl tl else tl) < n)
    by (destruct took; destruct tl; simpl in *; lia).
  apply (IH _ Lt _ eq_refl).
  revert S. unfold parseStep.
  repeat match goal with
         | |- context [if ?b then _ else _] => destruct b
         end;
  try destruct (hd_error tl);
  intros [= <- <- <-]; simpl; first [exact Has | discriminate].
Qed.

Lemma parseArgs_parsed (argv : list string) :
  parseArgs argv = (fst (parsed argv), Js.trim (Js.join " " (snd (parsed argv)))).
Proof. unfold parseArgs, parsed. now destruct (parseLoop initialFlags [] argv). Qed.

Lemma parseStep_plain (flags : Flags) (rest : list string) (tok : string)
  (next : option string) :
  plainToken tok -> parseStep flags rest tok next = (flags, (rest ++ [tok])%list, false).
Proof.
  intros [N P]. unfold parseStep. rewrite P.
  assert (E : forall k,
             In k ["--ai"; "--json"; "--help"; "-h"; "--version"; "-v"; "--out"] ->
             (tok =? k) = false).
  { intros k I. apply eqb_neq. intros ->. now apply N. }
  rewrite !E by (simpl; tauto). reflexivity.
Qed.

Lemma parseStep_out_operand (flags : Flags) (rest : list string) (path : string) :
  path <> EmptyString -> Js.startsWith "--" path = false ->
  parseStep flags rest "--out" (Some path) = (set_out path flags, rest, true).
Proof.
  intros Ne Dash. unfold parseStep. cbn [outOperand]. rewrite Dash.
  destruct path; [contradiction | reflexivity].
Qed.

Lemma parseStep_out_dangling (flags : Flags) (rest : list string)
  (next : option string) :
  outOperand next = false ->
  parseStep flags rest "--out" next = (flags, (rest ++ ["--out"])%list, false).
Proof. intros O. unfold parseStep. rewrite O. reflexivity. Qed.

Lemma parseStep_out_inline (flags : Flags) (rest : list string) (value : string)
  (next : option string) :
  parseStep flags rest ("--out=" ++ value) next = (set_out value flags, rest, false).
Proof.
  unfold parseStep.
  change (Js.sliceFrom 6 ("--out=" ++ value))
    with (Js.sliceFrom (String.length "--out=") ("--out=" ++ value)).
  rewrite sliceFrom_append. unfold Js.startsWith. rewrite prefix_append.
  reflexivity.
Qed.

(** C6, as the code has it.  For every argument list: [--out] followed by a
    non-empty token not starting with "--" sets the output path to that
    token and consumes it; a token [--out=value] sets it to the inline
    value; either way an output path is set at the end.  A token matching
    none of the flag rules, unless it was consumed as an operand, is added
    at the end of the prompt tokens, so that the tokens keep their relative
    order; a token starting with "--" is never an operand, so an unknown
    flag is always folded into the prompt.  The prompt is the join of the
    prompt tokens by single spaces with the white space at both ends
    removed.  The parser is a total function: nothing is rejected. *)
Theorem parseArgs_contract (pre post argv : list string) :
  let before := parsed pre in
  (forall path, path <> EmptyString -> Js.startsWith "--" path = false ->
     parsed (pre ++ "--out" :: path :: post)
     = parseLoop (set_out path (fst before)) (snd before) post /\
     out (fst (parseArgs (pre ++ "--out" :: path :: post))) <> None) /\
  (forall value,
     parsed (pre ++ ("--out=" ++ value) :: post)
     = parseLoop (set_out value (fst before)) (snd before) post /\
     out (fst (parseArgs (pre ++ ("--out=" ++ value) :: post))) <> None) /\
  (forall tok, plainToken tok -> scannedAfter pre tok ->
     parsed (pre ++ tok :: post)
     = parseLoop (fst before) (snd before ++ [tok]) post /\
     exists later, snd (parsed (pre ++ tok :: post)) = (snd before ++ tok :: later)%list) /\
  (forall tok, plainToken tok -> Js.startsWith "--" tok = true ->
     scannedAfter pre tok) /\
  (forall tok mid tok', plainToken tok -> scannedAfter pre tok ->
     plainToken tok' -> scannedAfter (pre ++ tok :: mid) tok' ->
     exists between later,
       snd (parsed (pre ++ tok :: mid ++ tok' :: post))
       = (snd before ++ tok :: between ++ tok' :: later)%list) /\
  snd (parseArgs argv) = Js.trim (Js.join " " (snd (parsed argv))).
Proof.
  intros before.
  assert (Plain : forall pre post tok, plainToken tok -> scannedAfter pre tok ->
            parsed (pre ++ tok :: post)
            = parseLoop (fst (parsed pre)) (snd (parsed pre) ++ [tok]) post /\
            exists later,
              snd (parsed (pre ++ tok :: post)) = (snd (parsed pre) ++ tok :: later)%list).
  { clear. intros pre post tok P S.
    assert (E : parsed (pre ++ tok :: post)
                = parseLoop (fst (parsed pre)) (snd (parsed pre) ++ [tok]) post).
    { unfold parsed. rewrite parseLoop_app by exact S.
      rewrite parseLoop_step, parseStep_plain by exact P. reflexivity. }
    split; [exact E|]. rewrite E.
    destruct (parseLoop_rest_grows post (fst (parsed pre)) (snd (parsed pre) ++ [tok]))
      as [later ->].
    exists later. now rewrite <- app_assoc. }
  refine (conj _ (conj _ (conj _ (conj _ (conj _ _))))).
  - intros path Ne Dash.
    assert (E : parsed (pre ++ "--out" :: path :: post)
                = parseLoop (set_out path (fst before)) (snd before) post).
    { unfold parsed. rewrite parseLoop_app by (right; reflexivity).
      rewrite parseLoop_step. simpl hd_error.
      rewrite parseStep_out_operand by assumption. reflexivity. }
    split; [exact E|].
    rewrite parseArgs_parsed. cbn [fst]. rewrite E.
    apply parseLoop_out_stays. discriminate.
  - intros value.
    assert (E : parsed (pre ++ ("--out=" ++ value) :: post)
                = parseLoop (set_out value (fst before)) (snd before) post).
    { unfold parsed. rewrite parseLoop_app by (right; reflexivity).
      rewrite parseLoop_step, parseStep_out_inline. reflexivity. }
    split; [exact E|].
    rewrite parseArgs_parsed. cbn [fst]. rewrite E.
    apply parseLoop_out_stays. discriminate.
  - intros tok P S. exact (Plain pre post tok P S).
  - intros tok _ Dash. right. now apply outOperand_dashes.
  - intros tok mid tok' P S P' S'.
    destruct (Plain pre mid tok P S) as [_ [between Hb]].
    destruct (Plain (pre ++ tok :: mid)%list post tok' P' S') as [_ [later Hl]].
    exists between, later.
    rewrite <- app_assoc in Hl. cbn [app] in Hl. rewrite Hl, Hb.
    now rewrite <- app_assoc.
  - now rewrite parseArgs_parsed.
Qed.

Lemma parseArgs_contract_witness :
  parsed ["--json"; "--out"; "-h"; "tail"]
  = parseLoop (set_out "-h" (set_json initialFlags)) [] ["tail"] /\
  out (fst (parseArgs ["--json"; "--out"; "-h"; "tail"])) <> None /\
  parsed ["a"; "--out"; "--frob"; "b"; "--ai"]
  = parseLoop initialFlags ["a"; "--out"; "--frob"] ["b"; "--ai"] /\
  (exists between later,
     snd (parsed ["a"; "--out"; "--frob"; "b"; "--ai"])
     = (["a"; "--out"] ++ "--frob" :: between ++ "b" :: later)%list).
Proof.
  assert (P1 : plainToken "--frob").
  { split; [|reflexivity]. simpl. intros H.
    repeat destruct H as [H|H]; try discriminate H. exact H. }
  assert (P2 : plainToken "b").
  { split; [|reflexivity]. simpl. intros H.
    repeat destruct H as [H|H]; try discriminate H. exact H. }
  refine (conj _ (conj _ (conj _ _))).
  - destruct (parseArgs_contract ["--json"] ["tail"] []) as (H & _).
    apply (H "-h"); [discriminate | reflexivity].
  - destruct (parseArgs_contract ["--json"] ["tail"] []) as (H & _).
    apply (H "-h"); [discriminate | reflexivity].
  - destruct (parseArgs_contract ["a"; "--out"] ["b"; "--ai"] []) as (_ & _ & H & S & _).
    apply (H "--frob" P1). apply (S "--frob" P1). reflexivity.
  - destruct (parseArgs_contract ["a"; "--out"] ["--ai"] []) as (_ & _ & _ & S & H & _).
    apply (H "--frob" [] "b" P1 (S "--frob" P1 eq_refl) P2).
    left. discriminate.
Defined.

(** C6 as the specification words it fails twice.  [--out] followed by the
    empty token, which does not start with "--", sets no output path; and
    the prompt of the single token " a" is "a", not the join " a" of the
    prompt tokens. *)
Lemma parseArgs_claim_counterexample :
  ~ (Js.startsWith "--" EmptyString = false ->
     out (fst (parseArgs ["--out"; EmptyString])) <> None) /\
  snd (parsed [" a"]) = [" a"] /\
  snd (parseArgs [" a"]) <> Js.join " " (snd (parsed [" a"])).
Proof.
  refine (conj _ (conj _ _)).
  - intros H. apply H; reflexivity.
  - reflexivity.
  - vm_compute. discriminate.
Qed.

(** C9.  A [--out] that ends the argument list, or that is followed by a
    token starting with "--", sets no output path: the flags are those of the
    tokens before it, and the literal token "--out" becomes the next prompt
    token (so, part of the prompt text); the token after it is then parsed
    in its own right.  Nothing is rejected. *)
Theorem parseArgs_dangling_out (pre : list string) :
  let before := parsed pre in
  parsed (pre ++ ["--out"]) = (fst before, (snd before ++ ["--out"])%list) /\
  fst (parseArgs (pre ++ ["--out"])) = fst (parseArgs pre) /\
  snd (parseArgs (pre ++ ["--out"]))
  = Js.trim (Js.join " " (snd before ++ ["--out"])) /\
  (forall next post, Js.startsWith "--" next = true ->
     parsed (pre ++ "--out" :: next :: post)
     = parseLoop (fst before) (snd before ++ ["--out"]) (next :: post)).
Proof.
  intros before.
  assert (E : parsed (pre ++ ["--out"]) = (fst before, (snd before ++ ["--out"])%list)).
  { unfold parsed. rewrite parseLoop_app by (right; reflexivity).
    rewrite parseLoop_step. simpl hd_error.
    rewrite parseStep_out_dangling by reflexivity. reflexivity. }
  refine (conj E (conj _ (conj _ _))).
  - rewrite !parseArgs_parsed. cbn [fst]. now rewrite E.
  - rewrite parseArgs_parsed. cbn [snd]. now rewrite E.
  - intros next post Dash.
    unfold parsed. rewrite parseLoop_app by (right; reflexivity).
    rewrite parseLoop_step. simpl hd_error.
    rewrite parseStep_out_dangling by (now apply outOperand_dashes).
    reflexivity.
Qed.

Lemma parseArgs_dangling_out_witness :
  parsed ["sort"; "--out"; "--json"; "x"]
  = parseLoop initialFlags ["sort"; "--out"] ["--json"; "x"] /\
  parseArgs ["sort"; "--out"; "--json"; "x"]
  = (set_json initialFlags, "sort --out x") /\
  parseArgs ["sort"; "--out"] = (initialFlags, "sort --out").
Proof.
  destruct (parseArgs_dangling_out ["sort"]) as (_ & _ & _ & H).
  refine (conj _ (conj _ _)).
  - apply (H "--json" ["x"]). reflexivity.
  - pose proof (H "--json" ["x"] eq_refl) as E. cbn [app] in E.
    rewrite parseArgs_parsed, E. reflexivity.
  - reflexivity.
Defined.

(* ------------------------------------------------------------------ *)
(** ** Orchestrator *)

Lemma isEmpty_true (s : string) : Js.isEmpty s = true <-> s = EmptyString.
Proof. destruct s; simpl; split; congruence. Qed.

(** C7, as the code has it.  With the version flag set, [main] prints the
    version text and does nothing else, with exit status 0.  Without it,
    when the help flag is set or the prompt is empty, [main] prints the usage
    text and does nothing else, and the exit status is non-zero exactly when
    the prompt is empty.  In every other case the run proper starts. *)
Theorem main_early_returns (w : World) (argv : list string) :
  let flags := fst (parseArgs argv) in
  let prompt := snd (parseArgs argv) in
  (version flags = true -> main w argv = mkOutcome [ConsoleLog versionText] 0) /\
  (version flags = false -> help flags = true \/ prompt = EmptyString ->
   events (main w argv) = [ConsoleLog helpText] /\
   (exitCode (main w argv) <> 0 <-> prompt = EmptyString)) /\
  (version flags = false -> help flags = false -> prompt <> EmptyString ->
   main w argv = run w flags prompt).
Proof.
  unfold main. destruct (parseArgs argv) as [flags prompt]. cbn [fst snd].
  refine (conj _ (conj _ _)).
  - intros ->. reflexivity.
  - intros -> H.
    assert (E : help flags || Js.isEmpty prompt = true).
    { destruct H as [->| ->]; [reflexivity | apply orb_true_r]. }
    rewrite E. cbn [events exitCode]. split; [reflexivity|].
    rewrite <- isEmpty_true. destruct (Js.isEmpty prompt); split; congruence.
  - intros -> -> N. rewrite <- isEmpty_true in N.
    apply not_true_is_false in N. now rewrite N.
Qed.

Lemma main_early_returns_witness :
  main onlineWorld ["--ai"; "prime"; "-v"; "--out"; "p.ts"]
  = mkOutcome [ConsoleLog versionText] 0 /\
  (events (main onlineWorld ["--help"; "prime"]) = [ConsoleLog helpText] /\
   (exitCode (main onlineWorld ["--help"; "prime"]) <> 0 <-> "prime" = EmptyString)) /\
  (events (main onlineWorld ["--json"]) = [ConsoleLog helpText] /\
   (exitCode (main onlineWorld ["--json"]) <> 0 <-> EmptyString = EmptyString)) /\
  main onlineWorld ["prime"] = run onlineWorld initialFlags "prime".
Proof.
  refine (conj _ (conj _ (conj _ _))).
  - destruct (main_early_returns onlineWorld ["--ai"; "prime"; "-v"; "--out"; "p.ts"])
      as (H & _).
    apply H. reflexivity.
  - destruct (main_early_returns onlineWorld ["--help"; "prime"]) as (_ & H & _).
    apply H; [reflexivity | left; reflexivity].
  - destruct (main_early_returns onlineWorld ["--json"]) as (_ & H & _).
    apply H; [reflexivity | right; reflexivity].
  - destruct (main_early_returns onlineWorld ["prime"]) as (_ & _ & H).
    apply H; [reflexivity | reflexivity | discriminate].
Defined.

(** C7 as the specification words it fails when the version flag comes with
    an empty prompt: [-v] alone has an empty prompt, yet [main] prints the
    version text, not the usage text, and the exit status is 0. *)
Lemma main_usage_claim_counterexample :
  snd (parseArgs ["-v"]) = EmptyString /\
  main offlineWorld ["-v"] = mkOutcome [ConsoleLog versionText] 0 /\
  ~ (snd (parseArgs ["-v"]) = EmptyString ->
     events (main offlineWorld ["-v"]) = [ConsoleLog helpText] /\
     exitCode (main offlineWorld ["-v"]) <> 0).
Proof.
  refine (conj eq_refl (conj eq_refl _)).
  intros H. destruct (H eq_refl) as [_ N]. apply N. reflexivity.
Qed.

Lemma parseStep_set_ai (flags : Flags) (rest : list string) (arg : string)
  (next : option string) :
  parseStep (set_ai flags) rest arg next =
    let '(f, r, took) := parseStep flags rest arg next in (set_ai f, r, took).
Proof.
  unfold parseStep.
  repeat match goal with
         | |- context [if ?b then _ else _] => destruct b; try reflexivity
         end.
  now destruct next.
Qed.

(** Setting [ai] first or last makes no difference to the loop. *)
Lemma parseLoop_set_ai (argv : list string) (flags : Flags) (rest : list string) :
  parseLoop (set_ai flags) rest argv =
    (set_ai (fst (parseLoop flags rest argv)), snd (parseLoop flags rest argv)).
Proof.
  remember (List.length argv) as n eqn:Len.
  revert argv Len flags rest.
  induction n as [n IH] using lt_wf_ind.
  intros [|a tl] Len flags rest; [reflexivity|].
  rewrite !parseLoop_step, parseStep_set_ai.
  destruct (parseStep flags rest a (hd_error tl)) as [[f r] took].
  assert (Lt : List.length (if took then List.tl tl else tl) < n)
    by (destruct took; destruct tl; simpl in *; lia).
  exact (IH _ Lt _ eq_refl f r).
Qed.

Lemma maybeAI_without_key (w : World) (prompt : string) :
  truthy (apiKey w) = false -> maybeAIPlanAndCode w prompt = ([], None).
Proof.
  unfold maybeAIPlanAndCode, truthy. destruct (apiKey w) as [key|]; [|reflexivity].
  destruct (Js.isEmpty key); [reflexivity | discriminate].
Qed.

Lemma generate_without_key (w : World) (flags : Flags) (prompt : string) :
  truthy (apiKey w) = false ->
  generate w flags prompt = ([], makeOfflinePlanAndCode prompt).
Proof.
  intros K. unfold generate. rewrite (maybeAI_without_key w prompt K).
  now destruct (ai flags).
Qed.

(** C8.  Without an API key in the environment the adapter returns no
    result at once and sends nothing, the result is the offline one whether
    [--ai] is given or not, and a run with [--ai] is the same run as without
    it, event for event (console text in either rendering, the warning, the
    file written) and in its exit status. *)
Theorem ai_without_key_is_offline (w : World) :
  truthy (apiKey w) = false ->
  (forall prompt, maybeAIPlanAndCode w prompt = ([], None)) /\
  (forall flags prompt,
     generate w flags prompt = ([], makeOfflinePlanAndCode prompt)) /\
  (forall flags flags' prompt,
     sameButAi flags flags' -> run w flags prompt = run w flags' prompt) /\
  (forall argv argv',
     sameButAi (fst (parseArgs argv)) (fst (parseArgs argv')) ->
     snd (parseArgs argv) = snd (parseArgs argv') ->
     main w argv = main w argv') /\
  (forall argv, main w ("--ai" :: argv) = main w argv).
Proof.
  intros K.
  assert (Run : forall flags flags' prompt,
            sameButAi flags flags' -> run w flags prompt = run w flags' prompt).
  { intros flags flags' prompt (J & O & _ & _).
    unfold run. rewrite !generate_without_key by exact K.
    unfold save, render. now rewrite J, O. }
  assert (Main : forall argv argv',
            sameButAi (fst (parseArgs argv)) (fst (parseArgs argv')) ->
            snd (parseArgs argv) = snd (parseArgs argv') ->
            main w argv = main w argv').
  { intros argv argv'. unfold main.
    destruct (parseArgs argv) as [f p], (parseArgs argv') as [f' p'].
    cbn [fst snd]. intros S <-. pose proof S as (_ & _ & -> & ->).
    now rewrite (Run f f' p S). }
  refine (conj _ (conj _ (conj Run (conj Main _)))).
  - intros prompt. now apply maybeAI_without_key.
  - intros flags prompt. now apply generate_without_key.
  - intros argv. apply Main.
    + rewrite !parseArgs_parsed. cbn [fst]. unfold parsed.
      cbn [parseLoop].
      rewrite (parseLoop_set_ai argv initialFlags []). cbn [fst].
      now repeat split.
    + rewrite !parseArgs_parsed. cbn [snd]. unfold parsed.
      cbn [parseLoop]. now rewrite (parseLoop_set_ai argv initialFlags []).
Qed.

Lemma ai_without_key_is_offline_witness :
  maybeAIPlanAndCode offlineWorld "reverse a string" = ([], None) /\
  main offlineWorld ["--ai"; "--out"; "r.ts"; "reverse"; "a"; "string"]
  = main offlineWorld ["--out"; "r.ts"; "reverse"; "a"; "string"] /\
  main offlineWorld ["--json"; "reverse"; "--ai"; "a"; "string"]
  = main offlineWorld ["--json"; "reverse"; "a"; "string"].
Proof.
  destruct (ai_without_key_is_offline offlineWorld eq_refl) as (A & _ & _ & M & P).
  refine (conj (A _) (conj (P _) _)).
  apply M; [now repeat split | reflexivity].
Defined.

(* ------------------------------------------------------------------ *)
(** ** Further properties: camel casing *)

(** Facts about single code units, by running through the 256 of them. *)
Ltac by_cases_on_char c :=
  destruct c as [[] [] [] [] [] [] [] []]; vm_compute; try reflexivity;
  try discriminate; auto.

Lemma lowerChar_idempotent (c : ascii) : Js.lowerChar (Js.lowerChar c) = Js.lowerChar c.
Proof. by_cases_on_char c. Qed.

Lemma lowerChar_upperChar (c : ascii) : Js.lowerChar (Js.upperChar c) = Js.lowerChar c.
Proof. by_cases_on_char c. Qed.

Lemma isAlnum_lowerChar (c : ascii) : Js.isAlnum (Js.lowerChar c) = Js.isAlnum c.
Proof. by_cases_on_char c. Qed.

Lemma isAlnum_upperChar (c : ascii) : Js.isAlnum (Js.upperChar c) = Js.isAlnum c.
Proof. by_cases_on_char c. Qed.

Lemma blankOut_kept (c : ascii) :
  negb (Js.isSpace (blankOut c)) = Js.isAlnum c /\
  (Js.isAlnum c = true -> blankOut c = c).
Proof.
  destruct c as [[] [] [] [] [] [] [] []]; vm_compute;
    (split; [reflexivity | intros H; first [reflexivity | discriminate H]]).
Qed.

Lemma isAlnum_isIdentChar (c : ascii) : Js.isAlnum c = true -> Js.isIdentChar c = true.
Proof. by_cases_on_char c. Qed.

Lemma isIdentStart_isIdentChar (c : ascii) :
  Js.isIdentStart c = true -> Js.isIdentChar c = true.
Proof. unfold Js.isIdentChar. now intros ->. Qed.

Lemma toLowerCase_idempotent (s : string) :
  Js.toLowerCase (Js.toLowerCase s) = Js.toLowerCase s.
Proof.
  unfold Js.toLowerCase. induction s as [|c s IH]; simpl; [reflexivity|].
  now rewrite lowerChar_idempotent, IH.
Qed.

Lemma toLowerCase_capitalize (w : string) :
  Js.toLowerCase (capitalize w) = Js.toLowerCase w.
Proof.
  destruct w as [|c w]; [reflexivity|]. unfold capitalize.
  change (Js.toLowerCase (String (Js.upperChar c) (Js.toLowerCase w)))
    with (String (Js.lowerChar (Js.upperChar c)) (Js.toLowerCase (Js.toLowerCase w))).
  now rewrite lowerChar_upperChar, toLowerCase_idempotent.
Qed.

Lemma join_empty_cons (x : string) (xs : list string) :
  Js.join EmptyString (x :: xs) = x ++ Js.join EmptyString xs.
Proof.
  unfold Js.join. destruct xs as [|y ys]; simpl; [now rewrite append_nil_r | reflexivity].
Qed.

Lemma join_camelWords (i : nat) (ws : list string) :
  Js.toLowerCase (Js.join EmptyString (camelWords i ws))
  = Js.toLowerCase (Js.join EmptyString ws).
Proof.
  revert i. induction ws as [|w ws IH]; intros i; [reflexivity|].
  cbn [camelWords]. rewrite !join_empty_cons. unfold Js.toLowerCase in *.
  rewrite !map_append. rewrite (IH (S i)). f_equal.
  destruct i; [apply toLowerCase_idempotent | apply toLowerCase_capitalize].
Qed.

Lemma join_filter_nonempty (ws : list string) :
  Js.join EmptyString (filter (fun w => negb (Js.isEmpty w)) ws)
  = Js.join EmptyString ws.
Proof.
  induction ws as [|w ws IH]; [reflexivity|]. cbn [filter].
  destruct w as [|c w]; cbn [Js.isEmpty negb].
  - now rewrite join_empty_cons, IH.
  - now rewrite !join_empty_cons, IH.
Qed.

(** The pieces of [split] put together are the string without its white
    space. *)
Lemma join_splitSpaces (s : string) :
  Js.join EmptyString (splitSpaces s) = keep (fun c => negb (Js.isSpace c)) s.
Proof.
  induction s as [|c s IH]; [reflexivity|].
  cbn [splitSpaces keep]. destruct (Js.isSpace c); cbn [negb].
  - destruct s as [|d s]; [reflexivity|].
    destruct (Js.isSpace d) eqn:D; [exact IH|].
    now rewrite join_empty_cons, IH.
  - destruct (splitSpaces s) as [|w ws].
    + now rewrite <- IH.
    + rewrite join_empty_cons in *. simpl. now rewrite IH.
Qed.

Lemma keep_blankOut (s : string) :
  keep (fun c => negb (Js.isSpace c)) (Js.map blankOut s) = keep Js.isAlnum s.
Proof.
  induction s as [|c s IH]; [reflexivity|]. cbn [Js.map keep].
  destruct (blankOut_kept c) as [-> Same].
  destruct (Js.isAlnum c); [now rewrite Same, IH | exact IH].
Qed.

Lemma all_keep (f : ascii -> bool) (s : string) : Js.all f (keep f s) = true.
Proof.
  induction s as [|c s IH]; [reflexivity|]. cbn [keep].
  destruct (f c) eqn:E; [simpl; now rewrite E | exact IH].
Qed.

Lemma all_toLowerCase_isAlnum (s : string) :
  Js.all Js.isAlnum (Js.toLowerCase s) = Js.all Js.isAlnum s.
Proof.
  unfold Js.toLowerCase. induction s as [|c s IH]; [reflexivity|].
  simpl. now rewrite isAlnum_lowerChar, IH.
Qed.

Lemma toLowerCase_empty (s : string) :
  Js.toLowerCase s = EmptyString <-> s = EmptyString.
Proof. destruct s; simpl; split; intros H; try reflexivity; discriminate H. Qed.

Lemma toCamelCase_alnum_facts (input : string) :
  Js.toLowerCase (toCamelCase input) = Js.toLowerCase (keep Js.isAlnum input) /\
  Js.all Js.isAlnum (toCamelCase input) = true /\
  String.length (toCamelCase input) = String.length (keep Js.isAlnum input) /\
  (toCamelCase input = EmptyString <-> keep Js.isAlnum input = EmptyString).
Proof.
  assert (E : Js.toLowerCase (toCamelCase input) = Js.toLowerCase (keep Js.isAlnum input)).
  { unfold toCamelCase. fold blankOut.
    change (fun c => if Js.isAlnum c || (Js.code c =? 32)%nat then c else " "%char)
      with blankOut.
    now rewrite join_camelWords, join_filter_nonempty, join_splitSpaces, keep_blankOut. }
  refine (conj E (conj _ (conj _ _))).
  - rewrite <- all_toLowerCase_isAlnum, E, all_toLowerCase_isAlnum. apply all_keep.
  - apply (f_equal String.length) in E. unfold Js.toLowerCase in E.
    assert (L : forall f s, String.length (Js.map f s) = String.length s).
    { intros f s. induction s as [|c s IH]; simpl; [reflexivity | now rewrite IH]. }
    now rewrite !L in E.
  - rewrite <- (toLowerCase_empty (toCamelCase input)), E. apply toLowerCase_empty.
Qed.

(** X1.  [toCamelCase] keeps exactly the letters and digits of its input,
    in order, and changes nothing but their case: up to case, its result is
    the input with every other character removed.  So the result holds
    letters and digits only, and it is empty exactly when the input has no
    letter or digit. *)
Theorem toCamelCase_keeps_alnum (input : string) :
  Js.toLowerCase (toCamelCase input) = Js.toLowerCase (keep Js.isAlnum input) /\
  Js.all Js.isAlnum (toCamelCase input) = true /\
  String.length (toCamelCase input) = String.length (keep Js.isAlnum input) /\
  (toCamelCase input = EmptyString <-> keep Js.isAlnum input = EmptyString).
Proof. exact (toCamelCase_alnum_facts input). Qed.

(* ------------------------------------------------------------------ *)
(** ** Further properties: the inferred name *)

Lemma all_sliceTo (f : ascii -> bool) (n : nat) (s : string) :
  Js.all f s = true -> Js.all f (Js.sliceTo n s) = true.
Proof.
  revert s. induction n as [|n IH]; intros [|c s]; simpl; trivial.
  intros H. apply andb_true_iff in H as [-> H]. now apply IH.
Qed.

Lemma all_weaken (f g : ascii -> bool) (s : string) :
  (forall c, f c = true -> g c = true) -> Js.all f s = true -> Js.all g s = true.
Proof.
  intros W. induction s as [|c s IH]; simpl; trivial.
  intros H. apply andb_true_iff in H as [F H]. now rewrite (W c F), IH.
Qed.

Lemma identifier_wellformed (id : string) :
  identifier id -> id <> EmptyString /\ Js.all Js.isIdentChar id = true.
Proof.
  intros (c & r & -> & S & R). split; [discriminate|].
  simpl. now rewrite (isIdentStart_isIdentChar c S), R.
Qed.

(** X2.  Whatever the prompt and the type, the inferred name is not empty
    and holds only letters, digits and underscores: no prompt can put a
    space, a quote or any other punctuation into the name that the templates
    splice into the code. *)
Theorem guessName_wellformed (prompt : string) (type : ArtifactType) :
  guessName prompt type <> EmptyString /\
  Js.all Js.isIdentChar (guessName prompt type) = true.
Proof.
  unfold guessName.
  destruct (exec matchFunctionAt prompt) as [id|] eqn:F.
  { apply (exec_captured _ _ matchFunctionAt_sound matchFunctionAt_complete) in F.
    destruct F as (_ & _ & _ & _ & _ & _ & _ & Id & _).
    now apply identifier_wellformed. }
  destruct (exec matchNamedAt prompt) as [id|] eqn:N.
  { apply (exec_captured _ _ matchNamedAt_sound matchNamedAt_complete) in N.
    destruct N as (_ & _ & _ & _ & _ & _ & _ & Id & _).
    now apply identifier_wellformed. }
  repeat match goal with
         | |- context [if Js.test ?ws ?p then _ else _] =>
             destruct (Js.test ws p); [split; [discriminate | reflexivity]|]
         end.
  destruct (toCamelCase_alnum_facts prompt) as (_ & A & _).
  destruct (Js.sliceTo 24 (toCamelCase prompt)) as [|c r] eqn:S.
  - cbn [Js.isEmpty]. destruct (ArtifactType_eqb type TyComponent);
      split; (discriminate || reflexivity).
  - cbn [Js.isEmpty]. split; [discriminate|]. rewrite <- S.
    apply all_sliceTo. revert A. apply all_weaken, isAlnum_isIdentChar.
Qed.

Lemma keep_append (f : ascii -> bool) (a b : string) :
  keep f (a ++ b) = keep f a ++ keep f b.
Proof.
  induction a as [|c a IH]; [reflexivity|]. cbn [append keep].
  destruct (f c); simpl; now rewrite IH.
Qed.

Lemma append_empty (a b : string) :
  a ++ b = EmptyString -> a = EmptyString /\ b = EmptyString.
Proof. destruct a; simpl; [now split | discriminate]. Qed.

(** A word cannot occur in a string that has none of its kind of
    characters. *)
Lemma occurs_keep_empty (f : ascii -> bool) (k s : string) :
  keep f s = EmptyString -> occurs k s -> keep f k = EmptyString.
Proof.
  intros E (pre & post & ->). rewrite !keep_append in E.
  apply append_empty in E as [_ E]. now apply append_empty in E as [E _].
Qed.

Lemma keep_isAlnum_toLowerCase (s : string) :
  keep Js.isAlnum (Js.toLowerCase s) = Js.toLowerCase (keep Js.isAlnum s).
Proof.
  unfold Js.toLowerCase. induction s as [|c s IH]; [reflexivity|].
  cbn [Js.map keep]. rewrite isAlnum_lowerChar.
  destruct (Js.isAlnum c); [simpl; now rewrite IH | exact IH].
Qed.

Lemma test_without_alnum (words : list string) (s : string) :
  keep Js.isAlnum s = EmptyString ->
  Forall (fun k => keep Js.isAlnum k <> EmptyString) words ->
  Js.test words s = false.
Proof.
  intros E W. apply test_not_mentions. intros (k & I & O).
  rewrite Forall_forall in W. apply (W k I).
  now apply (occurs_keep_empty Js.isAlnum k s).
Qed.

Lemma exec_without_alnum (words : list string) (matchAt : string -> option string)
  (s : string) :
  (forall s id, matchAt s = Some id ->
     exists w ws post,
       In w words /\ s = w ++ ws ++ id ++ post /\ spaces ws /\ identifier id /\
       identStops post) ->
  (forall w ws id post, In w words -> spaces ws -> identifier id ->
     exists id', matchAt (w ++ ws ++ id ++ post) = Some id') ->
  keep Js.isAlnum s = EmptyString ->
  Forall (fun k => keep Js.isAlnum k <> EmptyString) words ->
  exec matchAt s = None.
Proof.
  intros Sound Complete E W. apply (exec_not_found words matchAt Sound Complete).
  intros (pre & id & w & ws & post & I & -> & _).
  rewrite Forall_forall in W. apply (W w I).
  rewrite !keep_append in E. apply append_empty in E as [_ E].
  now apply append_empty in E as [E _].
Qed.

Ltac words_have_alnum :=
  repeat (apply Forall_cons; [vm_compute; discriminate|]); apply Forall_nil.

(** X3.  A prompt without any letter or digit matches no rule at all: it is
    classified as a function, named "doWork", and gets the stub that throws
    "Not implemented".  (So the other default name, "MyComponent", is never
    produced by the offline path: a prompt classified as a component
    mentions a word and has a camel-case form.) *)
Theorem makeOffline_without_alnum (prompt : string) :
  keep Js.isAlnum prompt = EmptyString ->
  guessType prompt = TyFunction /\
  guessName prompt TyFunction = "doWork" /\
  makeOfflinePlanAndCode prompt
  = mkPlanAndCode (makePlan prompt TyFunction "doWork") (stubTemplate "doWork").
Proof.
  intros E.
  assert (L : keep Js.isAlnum (Js.toLowerCase prompt) = EmptyString).
  { rewrite keep_isAlnum_toLowerCase, E. reflexivity. }
  assert (T : forall words,
            Forall (fun k => keep Js.isAlnum k <> EmptyString) words ->
            Js.test words (Js.toLowerCase prompt) = false).
  { intros words. now apply test_without_alnum. }
  assert (Ty : guessType prompt = TyFunction).
  { unfold guessType. now rewrite !T by words_have_alnum. }
  assert (Nm : guessName prompt TyFunction = "doWork").
  { unfold guessName.
    rewrite (exec_without_alnum ["function"] matchFunctionAt prompt
               matchFunctionAt_sound matchFunctionAt_complete E)
      by words_have_alnum.
    rewrite (exec_without_alnum ["called"; "named"] matchNamedAt prompt
               matchNamedAt_sound matchNamedAt_complete E)
      by words_have_alnum.
    rewrite !T by words_have_alnum.
    destruct (toCamelCase_alnum_facts prompt) as (_ & _ & _ & C).
    now rewrite (proj2 C E). }
  refine (conj Ty (conj Nm _)).
  unfold makeOfflinePlanAndCode. rewrite Ty, Nm.
  unfold codeTemplateFunction. now rewrite !T by words_have_alnum.
Qed.

Lemma makeOffline_without_alnum_witness :
  guessType "?!" = TyFunction /\
  guessName "?!" TyFunction = "doWork" /\
  makeOfflinePlanAndCode "?!"
  = mkPlanAndCode (makePlan "?!" TyFunction "doWork") (stubTemplate "doWork").
Proof. apply (makeOffline_without_alnum "?!"). reflexivity. Defined.

(* ------------------------------------------------------------------ *)
(** ** Further properties: the argument parser *)

Lemma parseStep_took_operand (flags : Flags) (rest : list string) (arg : string)
  (tl : list string) :
  snd (parseStep flags rest arg (hd_error tl)) = true ->
  arg = "--out" /\
  exists path tl', tl = path :: tl' /\ path <> EmptyString /\ Js.startsWith "--" path = false.
Proof.
  intros T. apply parseStep_took in T. apply andb_true_iff in T as [A O].
  apply eqb_eq in A. split; [exact A|].
  destruct tl as [|path tl']; [discriminate O|].
  exists path, tl'. simpl in O. apply andb_true_iff in O as [E D].
  repeat split.
  - intros ->. discriminate E.
  - now apply negb_true_iff in D.
Qed.

(** The loop goes on with the tail of the argument list, or with the tail of
    the tail. *)
Lemma argv_ind (P : list string -> Prop) :
  P [] ->
  (forall arg tl, P tl -> P (List.tl tl) -> P (arg :: tl)) ->
  forall argv, P argv.
Proof.
  intros Nil Cons argv.
  remember (List.length argv) as n eqn:Len. revert argv Len.
  induction n as [n IH] using lt_wf_ind.
  intros [|a tl] Len; [apply Nil|].
  apply Cons; (eapply IH; [|reflexivity]); destruct tl; simpl in *; lia.
Qed.

Section FlagTokens.

(** A boolean flag [get] that the tokens [tokens], and only they, switch
    on. *)
Variable get : Flags -> bool.
Variable tokens : list string.

Hypothesis step_law : forall flags rest arg next,
  get (fst (fst (parseStep flags rest arg next)))
  = get flags || existsb (String.eqb arg) tokens.

Lemma flag_sound (argv : list string) (flags : Flags) (rest : list string) :
  get (fst (parseLoop flags rest argv)) = true ->
  get flags = true \/ exists t, In t tokens /\ In t argv.
Proof.
  revert flags rest. induction argv as [|arg tl IH IH'] using argv_ind;
    intros flags rest G.
  - now left.
  - rewrite parseLoop_step in G.
    destruct (parseStep flags rest arg (hd_error tl)) as [[f r] took] eqn:S.
    pose proof (step_law flags rest arg (hd_error tl)) as L. rewrite S in L.
    cbn [fst] in L.
    assert (Next : get f = true \/
                   exists t, In t tokens /\ In t (if took then List.tl tl else tl))
      by (destruct took; [exact (IH' f r G) | exact (IH f r G)]).
    destruct Next as [F|(t & I & J)].
    + rewrite F in L. symmetry in L. apply orb_true_iff in L as [L|L]; [now left|].
      right. apply existsb_exists in L as (t & I & E). apply eqb_eq in E. subst t.
      exists arg. split; [exact I | now left].
    + right. exists t. split; [exact I|]. right.
      destruct took; [|exact J]. destruct tl; [destruct J | now right].
Qed.

Lemma flag_complete (argv : list string) (flags : Flags) (rest : list string) :
  get flags = true \/
  (exists t, In t tokens /\ Js.startsWith "--" t = true /\ In t argv) ->
  get (fst (parseLoop flags rest argv)) = true.
Proof.
  revert flags rest. induction argv as [|arg tl IH IH'] using argv_ind;
    intros flags rest G.
  - destruct G as [G|(t & _ & _ & [])]. exact G.
  - rewrite parseLoop_step.
    destruct (parseStep flags rest arg (hd_error tl)) as [[f r] took] eqn:S.
    pose proof (step_law flags rest arg (hd_error tl)) as L. rewrite S in L.
    cbn [fst] in L.
    cut (get f = true \/
         exists t, In t tokens /\ Js.startsWith "--" t = true /\
                   In t (if took then List.tl tl else tl)).
    { destruct took; [apply IH' | apply IH]. }
    destruct G as [G|(t & I & D & [<-|J])].
    + left. now rewrite L, G.
    + left. rewrite L. apply orb_true_iff. right.
      apply existsb_exists. exists arg. split; [exact I | apply eqb_refl].
    + right. exists t. repeat split; trivial.
      destruct took eqn:T; [|exact J].
      pose proof (parseStep_took_operand flags rest arg tl) as O.
      rewrite S in O. destruct (O eq_refl) as (_ & path & tl' & -> & _ & Dash).
      destruct J as [<-|J]; [congruence | exact J].
Qed.

End FlagTokens.

Ltac step_law_tac :=
  intros flags rest arg next; unfold parseStep;
  repeat match goal with
         | |- context [if ?b then _ else _] => destruct b eqn:?
         end;
  try destruct next;
  repeat match goal with
         | H : _ || _ = true |- _ => apply orb_true_iff in H; destruct H
         | H : _ || _ = false |- _ => apply orb_false_iff in H; destruct H
         | H : _ && _ = true |- _ => apply andb_true_iff in H; destruct H
         | H : (_ =? _) = true |- _ => apply eqb_eq in H; subst
         end;
  cbn [fst ai json help version set_ai set_json set_help set_version set_out existsb];
  repeat match goal with
         | H : (?a =? ?b) = false |- context [(?a =? ?b)] => rewrite H
         end;
  try reflexivity; try (now rewrite ?orb_true_r, ?orb_false_r);
  try discriminate.

Lemma step_law_ai : forall flags rest arg next,
  ai (fst (fst (parseStep flags rest arg next)))
  = ai flags || existsb (String.eqb arg) ["--ai"].
Proof. step_law_tac. Qed.

Lemma step_law_json : forall flags rest arg next,
  json (fst (fst (parseStep flags rest arg next)))
  = json flags || existsb (String.eqb arg) ["--json"].
Proof. step_law_tac. Qed.

Lemma step_law_help : forall flags rest arg next,
  help (fst (fst (parseStep flags rest arg next)))
  = help flags || existsb (String.eqb arg) ["--help"; "-h"].
Proof. step_law_tac. Qed.

Lemma step_law_version : forall flags rest arg next,
  version (fst (fst (parseStep flags rest arg next)))
  = version flags || existsb (String.eqb arg) ["--version"; "-v"].
Proof. step_law_tac. Qed.

(** X4.  What switches the boolean flags on.  [ai] is set exactly when the
    token [--ai] is in the argument list, and [json] exactly when [--json]
    is.  [--help] and [--version] always set their flag; the short forms
    [-h] and [-v] are the only other way to set it (they may also be taken as
    the operand of [--out], and then set nothing).  No flag is ever switched
    off again. *)
Theorem parseArgs_flags (argv : list string) :
  let flags := fst (parseArgs argv) in
  (ai flags = true <-> In "--ai" argv) /\
  (json flags = true <-> In "--json" argv) /\
  (In "--help" argv -> help flags = true) /\
  (help flags = true -> In "--help" argv \/ In "-h" argv) /\
  (In "--version" argv -> version flags = true) /\
  (version flags = true -> In "--version" argv \/ In "-v" argv).
Proof.
  rewrite parseArgs_parsed. cbn [fst]. unfold parsed.
  assert (One : forall (t : string) (l : list string),
            (exists x, In x [t] /\ In x l) -> In t l).
  { intros t l (x & [<-|[]] & H). exact H. }
  assert (Two : forall (t u : string) (l : list string),
            (exists x, In x [t; u] /\ In x l) -> In t l \/ In u l).
  { intros t u l (x & [<-|[<-|[]]] & H); [now left | now right]. }
  refine (conj _ (conj _ (conj _ (conj _ (conj _ _))))).
  - split.
    + intros H. apply (flag_sound ai ["--ai"] step_law_ai) in H.
      destruct H as [H|H]; [discriminate H | now apply One].
    + intros H. apply (flag_complete ai ["--ai"] step_law_ai). right.
      exists "--ai". repeat split; trivial. now left.
  - split.
    + intros H. apply (flag_sound json ["--json"] step_law_json) in H.
      destruct H as [H|H]; [discriminate H | now apply One].
    + intros H. apply (flag_complete json ["--json"] step_law_json). right.
      exists "--json". repeat split; trivial. now left.
  - intros H. apply (flag_complete help ["--help"; "-h"] step_law_help). right.
    exists "--help". repeat split; trivial. now left.
  - intros H. apply (flag_sound help ["--help"; "-h"] step_law_help) in H.
    destruct H as [H|H]; [discriminate H | now apply Two].
  - intros H. apply (flag_complete version ["--version"; "-v"] step_law_version).
    right. exists "--version". repeat split; trivial. now left.
  - intros H. apply (flag_sound version ["--version"; "-v"] step_law_version) in H.
    destruct H as [H|H]; [discriminate H | now apply Two].
Qed.

Lemma parseArgs_flags_witness :
  ai (fst (parseArgs ["sort"; "--out"; "--ai"; "-v"])) = true /\
  (In "--version" ["sort"; "--out"; "--ai"; "-v"] \/ In "-v" ["sort"; "--out"; "--ai"; "-v"]).
Proof.
  destruct (parseArgs_flags ["sort"; "--out"; "--ai"; "-v"]) as (A & _ & _ & _ & _ & V).
  split.
  - apply A. simpl. tauto.
  - apply V. reflexivity.
Defined.

(** The prompt tokens after one round are those before it, or the token just
    read when it matches no flag rule except possibly a bare [--out]. *)
Lemma parseStep_rest (flags : Flags) (rest : list string) (arg : string)
  (next : option string) (tok : string) :
  In tok (snd (fst (parseStep flags rest arg next))) ->
  In tok rest \/
  (tok = arg /\
   ~ In tok ["--ai"; "--json"; "--help"; "-h"; "--version"; "-v"] /\
   Js.startsWith "--out=" tok = false).
Proof.
  unfold parseStep.
  repeat match goal with
         | |- context [if ?b then _ else _] => destruct b eqn:?
         end;
  try destruct next; cbn [fst snd]; try (now left).
  all: intros I; apply in_app_or in I as [I|[<-|[]]]; [now left|]; right.
  all: repeat match goal with
         | H : _ || _ = false |- _ => apply orb_false_iff in H; destruct H
         | H : (_ =? _) = false |- _ => apply eqb_neq in H
         end.
  all: repeat split; trivial; simpl; intuition congruence.
Qed.

(** X5.  Every prompt token is a token of the argument list, and none of
    them is one of the six flag tokens or of the form [--out=value]: a
    recognised flag never leaks into the prompt text as a token of its
    own. *)
Theorem parseArgs_prompt_tokens (argv : list string) (tok : string) :
  In tok (snd (parsed argv)) ->
  In tok argv /\
  ~ In tok ["--ai"; "--json"; "--help"; "-h"; "--version"; "-v"] /\
  Js.startsWith "--out=" tok = false.
Proof.
  unfold parsed.
  cut (forall flags rest,
         In tok (snd (parseLoop flags rest argv)) ->
         In tok rest \/
         (In tok argv /\
          ~ In tok ["--ai"; "--json"; "--help"; "-h"; "--version"; "-v"] /\
          Js.startsWith "--out=" tok = false)).
  { intros H I. destruct (H initialFlags [] I) as [[]|G]. exact G. }
  induction argv as [|arg tl IH IH'] using argv_ind; intros flags rest I.
  - now left.
  - rewrite parseLoop_step in I.
    destruct (parseStep flags rest arg (hd_error tl)) as [[f r] took] eqn:S.
    assert (Next : In tok r \/
              (In tok (if took then List.tl tl else tl) /\
               ~ In tok ["--ai"; "--json"; "--help"; "-h"; "--version"; "-v"] /\
               Js.startsWith "--out=" tok = false))
      by (destruct took; [exact (IH' f r I) | exact (IH f r I)]).
    destruct Next as [R|(J & N)].
    + pose proof (parseStep_rest flags rest arg (hd_error tl) tok) as P.
      rewrite S in P. destruct (P R) as [Q|(-> & N)]; [now left|].
      right. split; [now left | exact N].
    + right. split; [|exact N]. right.
      destruct took; [|exact J]. destruct tl; [destruct J | now right].
Qed.

Lemma parseArgs_prompt_tokens_witness :
  In "sort" ["--json"; "sort"; "-h"] /\
  ~ In "sort" ["--ai"; "--json"; "--help"; "-h"; "--version"; "-v"] /\
  Js.startsWith "--out=" "sort" = false.
Proof.
  apply (parseArgs_prompt_tokens ["--json"; "sort"; "-h"] "sort").
  simpl. now left.
Defined.

Lemma parseLoop_out_kept (argv : list string) (flags : Flags) (rest : list string) :
  Forall noOutToken argv -> out (fst (parseLoop flags rest argv)) = out flags.
Proof.
  revert flags rest. induction argv as [|arg tl IH _] using argv_ind;
    intros flags rest N; [reflexivity|].
  apply Forall_cons_iff in N as [[Ne Inline] N].
  rewrite parseLoop_step.
  assert (S : exists f r, parseStep flags rest arg (hd_error tl) = (f, r, false) /\
                          out f = out flags).
  { unfold parseStep. apply eqb_neq in Ne. rewrite Ne, Inline. cbn [andb].
    repeat match goal with
           | |- context [if ?b then _ else _] => destruct b
           end; eexists; eexists; split; reflexivity. }
  destruct S as (f & r & -> & <-). now apply IH.
Qed.

(** X6.  The last setting of the output path wins, and nothing else sets
    one: after [--out=value], or after [--out] with a proper operand, tokens
    that are neither [--out] nor [--out=...] leave the path as it was set;
    and an argument list without such tokens has no output path at all. *)
Theorem parseArgs_last_out_wins (pre post : list string) :
  Forall noOutToken post ->
  (forall value,
     out (fst (parseArgs (pre ++ ("--out=" ++ value) :: post))) = Some value) /\
  (forall path, path <> EmptyString -> Js.startsWith "--" path = false ->
     out (fst (parseArgs (pre ++ "--out" :: path :: post))) = Some path) /\
  out (fst (parseArgs post)) = None.
Proof.
  intros N. rewrite !parseArgs_parsed. cbn [fst]. unfold parsed.
  refine (conj _ (conj _ _)).
  - intros value. rewrite parseArgs_parsed. cbn [fst]. unfold parsed.
    rewrite parseLoop_app by (right; reflexivity).
    rewrite parseLoop_step, parseStep_out_inline. cbn iota.
    now rewrite parseLoop_out_kept.
  - intros path Ne Dash. rewrite parseArgs_parsed. cbn [fst]. unfold parsed.
    rewrite parseLoop_app by (right; reflexivity).
    rewrite parseLoop_step. cbn [hd_error].
    rewrite parseStep_out_operand by assumption. cbn iota. cbn [List.tl].
    now rewrite parseLoop_out_kept.
  - now rewrite parseLoop_out_kept.
Qed.

Lemma parseArgs_last_out_wins_witness :
  (forall value,
     out (fst (parseArgs (["--out=a.ts"] ++ ("--out=" ++ value) :: ["sort"; "-v"])))
     = Some value) /\
  (forall path, path <> EmptyString -> Js.startsWith "--" path = false ->
     out (fst (parseArgs (["--out=a.ts"] ++ "--out" :: path :: ["sort"; "-v"])))
     = Some path) /\
  out (fst (parseArgs ["sort"; "-v"])) = None.
Proof.
  apply (parseArgs_last_out_wins ["--out=a.ts"] ["sort"; "-v"]).
  repeat (apply Forall_cons; [split; [discriminate | reflexivity]|]).
  apply Forall_nil.
Defined.

(* ------------------------------------------------------------------ *)
(** ** Further properties: the prompt text *)

Lemma all_append (f : ascii -> bool) (a b : string) :
  Js.all f (a ++ b) = Js.all f a && Js.all f b.
Proof. induction a as [|c a IH]; simpl; [reflexivity | now rewrite IH, andb_assoc]. Qed.

Lemma trimEnd_empty (s : string) :
  Js.trimEnd s = EmptyString <-> Js.all Js.isSpace s = true.
Proof.
  induction s as [|c s IH]; simpl; [tauto|].
  destruct (Js.isSpace c); simpl.
  - destruct (Js.trimEnd s) eqn:E; simpl.
    + split; [intros _; now apply IH | reflexivity].
    + split; [discriminate|]. intros A. apply IH in A. discriminate A.
  - split; discriminate.
Qed.

Lemma trimEnd_last (s pre : string) (c : ascii) :
  Js.trimEnd s = pre ++ String c EmptyString -> Js.isSpace c = false.
Proof.
  revert pre. induction s as [|a s IH]; intros pre; simpl.
  - destruct pre; discriminate.
  - destruct (Js.isSpace a && Js.isEmpty (Js.trimEnd s)) eqn:B.
    + destruct pre; discriminate.
    + destruct pre as [|p pre]; simpl; intros [= -> E].
      * rewrite E in B. simpl in B. now rewrite andb_true_r in B.
      * now apply (IH pre).
Qed.

Lemma dropWhile_all (f : ascii -> bool) (s : string) :
  Js.dropWhile f s = EmptyString <-> Js.all f s = true.
Proof.
  induction s as [|c s IH]; simpl; [tauto|].
  destruct (f c); simpl; [exact IH | split; discriminate].
Qed.

Lemma trim_empty (s : string) :
  Js.trim s = EmptyString <-> Js.all Js.isSpace s = true.
Proof.
  unfold Js.trim. rewrite trimEnd_empty. split.
  - intros A. apply dropWhile_all.
    pose proof (dropWhile_stops Js.isSpace s) as Stop.
    destruct (Js.dropWhile Js.isSpace s) as [|c r]; [reflexivity|].
    simpl in A. now rewrite Stop in A.
  - intros A. apply dropWhile_all in A. now rewrite A.
Qed.

Lemma trim_first (s r : string) (c : ascii) :
  Js.trim s = String c r -> Js.isSpace c = false.
Proof.
  unfold Js.trim. pose proof (dropWhile_stops Js.isSpace s) as Stop.
  destruct (Js.dropWhile Js.isSpace s) as [|d x]; [discriminate|].
  simpl. rewrite Stop. simpl. now intros [= <- _].
Qed.

Lemma all_join_space (ls : list string) :
  Js.all Js.isSpace (Js.join " " ls) = true <-> Forall blankToken ls.
Proof.
  unfold Js.join, blankToken. induction ls as [|x [|y ls] IH].
  - simpl. split; [constructor | reflexivity].
  - simpl. split; [intros H; now repeat constructor | now intros H%Forall_inv].
  - change (String.concat " " (x :: y :: ls))
      with (x ++ " " ++ String.concat " " (y :: ls)).
    rewrite !all_append, !andb_true_iff, IH. simpl.
    split.
    + intros (X & _ & R). now constructor.
    + intros H. apply Forall_cons_iff in H as [X R]. now repeat split.
Qed.

(** X7.  The prompt never starts or ends with white space, and it is empty
    exactly when every prompt token is blank (in particular when there is
    none). *)
Theorem parseArgs_prompt_trimmed (argv : list string) :
  let prompt := snd (parseArgs argv) in
  (forall c r, prompt = String c r -> Js.isSpace c = false) /\
  (forall pre c, prompt = pre ++ String c EmptyString -> Js.isSpace c = false) /\
  (prompt = EmptyString <-> Forall blankToken (snd (parsed argv))).
Proof.
  rewrite parseArgs_parsed. cbn [snd].
  refine (conj _ (conj _ _)).
  - intros c r. apply trim_first.
  - intros pre c. apply trimEnd_last.
  - now rewrite trim_empty, all_join_space.
Qed.

(** X8.  An invocation whose prompt tokens are all blank, or that has none,
    is answered like one without a prompt: unless the version flag is set,
    [main] prints the usage text, does nothing else, and exits with status
    1 (with or without [--help]). *)
Theorem main_blank_prompt (w : World) (argv : list string) :
  version (fst (parseArgs argv)) = false ->
  Forall blankToken (snd (parsed argv)) ->
  main w argv = mkOutcome [ConsoleLog helpText] 1.
Proof.
  intros V B.
  assert (P : snd (parseArgs argv) = EmptyString).
  { rewrite parseArgs_parsed. cbn [snd]. now rewrite trim_empty, all_join_space. }
  unfold main. destruct (parseArgs argv) as [flags prompt]. cbn [fst snd] in *.
  subst prompt. rewrite V. cbn [Js.isEmpty]. now rewrite orb_true_r.
Qed.

Lemma main_blank_prompt_witness :
  main onlineWorld ["--ai"; "  "; "--out=x.ts"; EmptyString]
  = mkOutcome [ConsoleLog helpText] 1.
Proof.
  apply (main_blank_prompt onlineWorld ["--ai"; "  "; "--out=x.ts"; EmptyString]).
  - reflexivity.
  - repeat constructor.
Defined.

(* ------------------------------------------------------------------ *)
(** ** Further properties: what a run does to the world *)

Lemma logSteps_console (i : nat) (steps : list string) (e : Event) :
  In e (logSteps i steps) -> exists text, e = ConsoleLog text.
Proof.
  revert i. induction steps as [|s steps IH]; intros i; simpl; [tauto|].
  intros [<-|I]; [eexists; reflexivity | exact (IH _ I)].
Qed.

(** The rendering only writes to the console. *)
Lemma render_console (flags : Flags) (result : PlanAndCode) (e : Event) :
  In e (render flags result) -> exists text, e = ConsoleLog text.
Proof.
  unfold render. destruct (json flags).
  - intros [<-|[]]. eexists; reflexivity.
  - intros I. apply in_app_or in I as [[<-|[]]|I]; [eexists; reflexivity|].
    apply in_app_or in I as [I|[<-|[<-|[]]]];
      [exact (logSteps_console _ _ _ I) | eexists; reflexivity | eexists; reflexivity].
Qed.

(** The request, when there is one. *)
Lemma generate_events (w : World) (flags : Flags) (prompt : string) (e : Event) :
  In e (fst (generate w flags prompt)) ->
  ai flags = true /\
  exists key, apiKey w = Some key /\ key <> EmptyString /\
    e = HttpPost endpoint ("Bearer " ++ key) (requestBody prompt) /\
    fst (generate w flags prompt) = [e].
Proof.
  unfold generate, maybeAIPlanAndCode.
  destruct (ai flags); [|intros []].
  destruct (apiKey w) as [key|]; [|intros []].
  destruct key as [|c key]; [intros []|].
  cbn [Js.isEmpty fst]. intros [<-|[]].
  split; [reflexivity|]. exists (String c key). repeat split. discriminate.
Qed.

(** The events of the [--out] part. *)
Lemma save_events (w : World) (flags : Flags) (result : PlanAndCode) (e : Event) :
  In e (fst (save w flags result)) ->
  exists o, out flags = Some o /\ o <> EmptyString /\ cwdThrows w = false /\
    (e = ConsoleWarn ("File already exists: " ++ resolvePath w o ++ " " ++ Js.emDash ++ " overwriting.")
     /\ pathExists w (resolvePath w o) = true
     \/ e = FileWrite (resolvePath w o) (code result) /\ writeFails w (resolvePath w o) = false
     \/ e = ConsoleLog ("Saved to " ++ resolvePath w o) /\ writeFails w (resolvePath w o) = false).
Proof.
  unfold save. destruct (out flags) as [o|]; [|intros []].
  destruct o as [|c o]; [intros []|]. cbn [Js.isEmpty].
  destruct (cwdThrows w); [intros []|].
  set (p := resolvePath w (String c o)).
  intros I. exists (String c o). split; [reflexivity|]. split; [discriminate|].
  split; [reflexivity|].
  destruct (writeFails w p) eqn:F; destruct (pathExists w p) eqn:X;
    cbn [fst app] in I; simpl in I; intuition (subst; auto).
Qed.

(** The events of [main], sorted by the part of the program that causes
    them. *)
Lemma main_events (w : World) (argv : list string) (e : Event) :
  In e (events (main w argv)) ->
  let flags := fst (parseArgs argv) in
  let prompt := snd (parseArgs argv) in
  (exists text, e = ConsoleLog text) \/ e = ConsoleError "Unexpected error:" \/
  version flags = false /\ help flags = false /\ prompt <> EmptyString /\
  (In e (fst (generate w flags prompt)) \/
   In e (fst (save w flags (snd (generate w flags prompt))))).
Proof.
  unfold main. destruct (parseArgs argv) as [flags prompt]. cbn [fst snd].
  destruct (version flags); [intros [<-|[]]; left; eexists; reflexivity|].
  destruct (help flags); [intros [<-|[]]; left; eexists; reflexivity|].
  destruct prompt as [|c prompt]; [intros [<-|[]]; left; eexists; reflexivity|].
  cbn [orb Js.isEmpty]. unfold run.
  destruct (generate w flags (String c prompt)) as [requested result].
  cbn [fst snd].
  destruct (save w flags result) as [saved threw]. cbn [fst snd].
  assert (G : In e (requested ++ render flags result ++ saved) ->
              (exists text, e = ConsoleLog text) \/ e = ConsoleError "Unexpected error:" \/
              false = false /\ false = false /\ String c prompt <> EmptyString /\
              (In e requested \/ In e saved)).
  { intros I. apply in_app_or in I as [I|I].
    - right. right. repeat split; try discriminate. now left.
    - apply in_app_or in I as [I|I].
      + left. exact (render_console _ _ _ I).
      + right. right. repeat split; try discriminate. now right. }
  destruct threw; cbn [events]; [|exact G].
  rewrite !app_assoc. intros I. apply in_app_or in I as [I|[<-|[]]].
  - apply G. now rewrite <- !app_assoc in I.
  - right. now left.
Qed.

(** X9.  [main] writes a file only in a run proper (no version or help flag,
    a non-empty prompt) with a non-empty output path; it then writes to that
    path, resolved against the working directory, and the content is the
    code of the result and nothing else (never the plan). *)
Theorem main_file_write (w : World) (argv : list string) (path content : string) :
  In (FileWrite path content) (events (main w argv)) ->
  let flags := fst (parseArgs argv) in
  let prompt := snd (parseArgs argv) in
  version flags = false /\ help flags = false /\ prompt <> EmptyString /\
  exists o, out flags = Some o /\ o <> EmptyString /\
    path = resolvePath w o /\ writeFails w path = false /\
    content = code (snd (generate w flags prompt)).
Proof.
  intros I. apply main_events in I. cbv zeta in *.
  destruct I as [[text E]|[E|(V & H & P & [I|I])]]; try discriminate E.
  - apply generate_events in I as (_ & key & _ & _ & E & _). discriminate E.
  - refine (conj V (conj H (conj P _))).
    apply save_events in I as (o & O & Ne & _ & [[E _]|[[E F]|[E _]]]);
      try discriminate E.
    injection E as -> ->. exists o. now repeat split.
Qed.

Lemma main_file_write_witness :
  version (fst (parseArgs ["--out"; "r.ts"; "reverse a string"])) = false /\
  help (fst (parseArgs ["--out"; "r.ts"; "reverse a string"])) = false /\
  snd (parseArgs ["--out"; "r.ts"; "reverse a string"]) <> EmptyString /\
  exists o, out (fst (parseArgs ["--out"; "r.ts"; "reverse a string"])) = Some o /\
    o <> EmptyString /\
    "/work/r.ts" = resolvePath offlineWorld o /\
    writeFails offlineWorld "/work/r.ts" = false /\
    reverseTemplate "reverseString"
    = code (snd (generate offlineWorld
                   (fst (parseArgs ["--out"; "r.ts"; "reverse a string"]))
                   (snd (parseArgs ["--out"; "r.ts"; "reverse a string"])))).
Proof.
  apply (main_file_write offlineWorld ["--out"; "r.ts"; "reverse a string"]
           "/work/r.ts" (reverseTemplate "reverseString")).
  vm_compute. tauto.
Defined.

(** X10.  [main] sends a request only in a run proper with [--ai] given and
    a non-empty API key in the environment; the request goes to the fixed
    endpoint, carries the key as a bearer token and the prompt as its JSON
    body. *)
Theorem main_request (w : World) (argv : list string) (url auth body : string) :
  In (HttpPost url auth body) (events (main w argv)) ->
  let flags := fst (parseArgs argv) in
  let prompt := snd (parseArgs argv) in
  version flags = false /\ help flags = false /\ prompt <> EmptyString /\
  ai flags = true /\
  exists key, apiKey w = Some key /\ key <> EmptyString /\
    url = endpoint /\ auth = "Bearer " ++ key /\ body = requestBody prompt.
Proof.
  intros I. apply main_events in I. cbv zeta in *.
  destruct I as [[text E]|[E|(V & H & P & [I|I])]]; try discriminate E.
  - refine (conj V (conj H (conj P _))).
    apply generate_events in I as (A & key & K & Ne & E & _).
    injection E as -> -> ->. split; [exact A|]. exists key. now repeat split.
  - apply save_events in I as (o & _ & _ & _ & [[E _]|[[E _]|[E _]]]); discriminate E.
Qed.

Lemma main_request_witness :
  version (fst (parseArgs ["--ai"; "sort"])) = false /\
  help (fst (parseArgs ["--ai"; "sort"])) = false /\
  snd (parseArgs ["--ai"; "sort"]) <> EmptyString /\
  ai (fst (parseArgs ["--ai"; "sort"])) = true /\
  exists key, apiKey onlineWorld = Some key /\ key <> EmptyString /\
    endpoint = endpoint /\ "Bearer hf_token" = "Bearer " ++ key /\
    requestBody "sort" = requestBody (snd (parseArgs ["--ai"; "sort"])).
Proof.
  apply (main_request onlineWorld ["--ai"; "sort"] endpoint "Bearer hf_token"
           (requestBody "sort")).
  vm_compute. tauto.
Defined.

(** X11.  The exit status on the offline path (no [--ai], no API key, or no
    usable reply, so that the result is the offline one and printing it
    cannot fail).  It is 0 or 1, and it is 1 in exactly these cases, all
    without the version flag: the prompt is empty; or, in a run proper with
    a non-empty output path, [process.cwd()] throws or [writeFileSync]
    throws. *)
Theorem main_exit_status (w : World) (argv : list string) :
  let flags := fst (parseArgs argv) in
  let prompt := snd (parseArgs argv) in
  (version flags = false -> help flags = false -> prompt <> EmptyString ->
   offlinePath w flags prompt) ->
  (exitCode (main w argv) = 0 \/ exitCode (main w argv) = 1) /\
  (exitCode (main w argv) = 1 <->
   version flags = false /\
   (prompt = EmptyString \/
    help flags = false /\
    exists o, out flags = Some o /\ o <> EmptyString /\
      (cwdThrows w = true \/ writeFails w (resolvePath w o) = true))).
Proof.
  unfold main. destruct (parseArgs argv) as [flags prompt]. cbn [fst snd].
  intros _.
  destruct (version flags).
  { cbn [exitCode]. split; [now left|]. split; [discriminate | now intros [V _]]. }
  destruct prompt as [|c prompt].
  { rewrite orb_true_r. cbn [exitCode Js.isEmpty]. split; [now right|].
    split; [intros _; split; [reflexivity | now left] | reflexivity]. }
  destruct (help flags).
  { cbn [orb exitCode Js.isEmpty]. split; [now left|]. split; [discriminate|].
    intros [_ [E|[E _]]]; discriminate E. }
  cbn [orb Js.isEmpty]. unfold run.
  destruct (generate w flags (String c prompt)) as [requested result].
  unfold save. destruct (out flags) as [o|].
  - destruct o as [|d o]; cbn [Js.isEmpty].
    + cbn [exitCode]. split; [now left|]. split; [discriminate|].
      intros [_ [E|[_ (o & [= <-] & Ne & _)]]]; [discriminate E | now destruct Ne].
    + destruct (cwdThrows w) eqn:C.
      { cbn [exitCode]. split; [now right|]. split; [|reflexivity]. intros _.
        split; [reflexivity|]. right. split; [reflexivity|].
        exists (String d o). repeat split; [discriminate | now left]. }
      destruct (writeFails w (resolvePath w (String d o))) eqn:F; cbn [exitCode].
      * split; [now right|]. split; [|reflexivity]. intros _.
        split; [reflexivity|]. right. split; [reflexivity|].
        exists (String d o). repeat split; [discriminate | now right].
      * split; [now left|]. split; [discriminate|].
        intros [_ [E|[_ (o' & [= <-] & _ & [C'|F'])]]];
          [discriminate E | discriminate C' | congruence].
  - cbn [exitCode]. split; [now left|]. split; [discriminate|].
    intros [_ [E|[_ (o & E & _)]]]; discriminate E.
Qed.

(** A machine without an API key whose working directory is gone. *)
Lemma main_exit_status_witness :
  let w := mkWorld None (fun _ => None) true (fun p => p) (fun _ => false)
             (fun _ => false) in
  (exitCode (main w ["--out"; "s.ts"; "sort"]) = 0 \/
   exitCode (main w ["--out"; "s.ts"; "sort"]) = 1) /\
  exitCode (main w ["--out"; "s.ts"; "sort"]) = 1 /\
  exitCode (main offlineWorld ["--out"; "s.ts"; "sort"]) <> 1.
Proof.
  intros w.
  destruct (main_exit_status w ["--out"; "s.ts"; "sort"]) as (R & E).
  { intros _ _ _. left. reflexivity. }
  destruct (main_exit_status offlineWorld ["--out"; "s.ts"; "sort"]) as (_ & E').
  { intros _ _ _. left. reflexivity. }
  refine (conj R (conj _ _)).
  - apply E. split; [reflexivity|]. right. split; [reflexivity|].
    exists "s.ts". repeat split; [discriminate | now left].
  - intros X. apply E' in X as (_ & [P|(_ & o & _ & _ & [C|F])]); discriminate.
Defined.

(* ------------------------------------------------------------------ *)
(** ** Further properties: the two name patterns *)

(** X12.  What the two [exec] calls of [guessName] return.  The result is
    the identifier after the leftmost "function" (or "called"/"named") that
    is followed by white space and an identifier, taken as long as it can
    be; there is no result exactly when the prompt contains no such
    pattern.  The match is case-sensitive and needs white space, not just
    any separator, between the word and the identifier. *)
Theorem exec_patterns_spec (prompt id : string) :
  (exec matchFunctionAt prompt = Some id <-> captured ["function"] prompt id) /\
  (exec matchNamedAt prompt = Some id <-> captured ["called"; "named"] prompt id) /\
  (exec matchFunctionAt prompt = None <-> ~ containsPattern ["function"] prompt) /\
  (exec matchNamedAt prompt = None <-> ~ containsPattern ["called"; "named"] prompt).
Proof.
  refine (conj _ (conj _ (conj _ _))).
  - symmetry. apply captured_function.
  - symmetry. apply captured_named.
  - rewrite containsPattern_function. split.
    + intros N [x E]. congruence.
    + intros N. destruct (exec matchFunctionAt prompt) as [x|]; [|reflexivity].
      exfalso. apply N. now exists x.
  - rewrite containsPattern_named. split.
    + intros N [x E]. congruence.
    + intros N. destruct (exec matchNamedAt prompt) as [x|]; [|reflexivity].
      exfalso. apply N. now exists x.
Qed.

(* ------------------------------------------------------------------ *)
(** ** Further properties: classifier, name and template together *)

Lemma test_in (k : string) (words : list string) (s : string) :
  In k words -> occurs k s -> Js.test words s = true.
Proof. intros I O. apply test_mentions. now exists k. Qed.

Lemma guessType_function_word (k prompt : string) :
  In k functionWords -> occurs k (Js.toLowerCase prompt) ->
  guessType prompt = TyFunction.
Proof.
  intros I O. unfold guessType.
  now rewrite (test_in k functionWords _ I O), orb_true_r.
Qed.

(** X13.  The four function keywords that are also classifier keywords
    always reach their template, whatever else the prompt mentions (a
    component, an API, a script): with "prime" the code is the primality
    test; failing that, with "fibonacci" the Fibonacci function; failing
    that and "fib", with "factorial" the factorial; failing those, with
    "reverse" and "string" the reversal. *)
Theorem makeOffline_function_words (prompt : string) :
  let p := Js.toLowerCase prompt in
  let name := guessName prompt TyFunction in
  let result := makeOfflinePlanAndCode prompt in
  (occurs "prime" p ->
   result = mkPlanAndCode (makePlan prompt TyFunction name) (primeTemplate name)) /\
  (~ occurs "prime" p -> occurs "fibonacci" p ->
   result = mkPlanAndCode (makePlan prompt TyFunction name) (fibonacciTemplate name)) /\
  (~ occurs "prime" p -> ~ mentions ["fibonacci"; "fib"] p -> occurs "factorial" p ->
   result = mkPlanAndCode (makePlan prompt TyFunction name) (factorialTemplate name)) /\
  (~ occurs "prime" p -> ~ mentions ["fibonacci"; "fib"] p -> ~ occurs "factorial" p ->
   occurs "reverse" p -> occurs "string" p ->
   result = mkPlanAndCode (makePlan prompt TyFunction name) (reverseTemplate name)).
Proof.
  intros p name result. subst result name. unfold makeOfflinePlanAndCode.
  refine (conj _ (conj _ (conj _ _))).
  - intros P. rewrite (guessType_function_word "prime" prompt) by (simpl; tauto).
    unfold codeTemplateFunction. fold p.
    now rewrite (proj2 (test_single "prime" p) P).
  - intros NP F. rewrite (guessType_function_word "fibonacci" prompt) by (simpl; tauto).
    unfold codeTemplateFunction. fold p.
    rewrite <- test_single in NP. apply not_true_is_false in NP.
    assert (T : Js.test ["fibonacci"; "fib"] p = true)
      by (apply (test_in "fibonacci"); [now left | exact F]).
    now rewrite NP, T.
  - intros NP NF F. rewrite (guessType_function_word "factorial" prompt) by (simpl; tauto).
    unfold codeTemplateFunction. fold p.
    rewrite <- test_single in NP. apply not_true_is_false in NP.
    apply test_not_mentions in NF.
    now rewrite NP, NF, (proj2 (test_single "factorial" p) F).
  - intros NP NF NX R S. rewrite (guessType_function_word "reverse" prompt) by (simpl; tauto).
    unfold codeTemplateFunction. fold p.
    rewrite <- test_single in NP, NX. apply not_true_is_false in NP, NX.
    apply test_not_mentions in NF.
    now rewrite NP, NF, NX, (proj2 (test_single "reverse" p) R),
      (proj2 (test_single "string" p) S).
Qed.

Lemma makeOffline_function_words_witness :
  makeOfflinePlanAndCode "a React component for prime numbers"
  = mkPlanAndCode
      (makePlan "a React component for prime numbers" TyFunction "isPrime")
      (primeTemplate "isPrime") /\
  makeOfflinePlanAndCode "CLI utility: reverse a string"
  = mkPlanAndCode
      (makePlan "CLI utility: reverse a string" TyFunction "reverseString")
      (reverseTemplate "reverseString").
Proof.
  split.
  - destruct (makeOffline_function_words "a React component for prime numbers")
      as (H & _).
    apply H. by_test.
  - destruct (makeOffline_function_words "CLI utility: reverse a string")
      as (_ & _ & _ & H).
    apply H; by_test.
Defined.

(** X14.  Name and body follow different keyword orders.  Without an
    explicit name, a prompt that mentions "prime" always gets the primality
    test as its body, but the function is called after the first of
    reverse, fibonacci|fib, factorial, debounce, throttle that the prompt
    also mentions; it is called "isPrime" only when it mentions none of
    them. *)
Theorem prime_body_under_other_names (prompt : string) :
  let p := Js.toLowerCase prompt in
  let body := code (makeOfflinePlanAndCode prompt) in
  ~ containsPattern ["function"] prompt ->
  ~ containsPattern ["called"; "named"] prompt ->
  occurs "prime" p ->
  (occurs "reverse" p -> body = primeTemplate "reverseString") /\
  (~ occurs "reverse" p -> mentions ["fibonacci"; "fib"] p ->
   body = primeTemplate "fibonacci") /\
  (~ occurs "reverse" p -> ~ mentions ["fibonacci"; "fib"] p -> occurs "factorial" p ->
   body = primeTemplate "factorial") /\
  (~ occurs "reverse" p -> ~ mentions ["fibonacci"; "fib"] p -> ~ occurs "factorial" p ->
   occurs "debounce" p -> body = primeTemplate "debounce") /\
  (~ occurs "reverse" p -> ~ mentions ["fibonacci"; "fib"] p -> ~ occurs "factorial" p ->
   ~ occurs "debounce" p -> occurs "throttle" p -> body = primeTemplate "throttle") /\
  (~ occurs "reverse" p -> ~ mentions ["fibonacci"; "fib"] p -> ~ occurs "factorial" p ->
   ~ occurs "debounce" p -> ~ occurs "throttle" p -> body = primeTemplate "isPrime").
Proof.
  intros p body NF NN P. subst body.
  unfold makeOfflinePlanAndCode.
  rewrite (guessType_function_word "prime" prompt) by (simpl; tauto).
  cbn [code]. unfold codeTemplateFunction. fold p.
  rewrite (proj2 (test_single "prime" p) P).
  apply (exec_not_found _ _ matchFunctionAt_sound matchFunctionAt_complete) in NF.
  apply (exec_not_found _ _ matchNamedAt_sound matchNamedAt_complete) in NN.
  unfold guessName. rewrite NF, NN. fold p.
  rewrite (proj2 (test_single "prime" p) P).
  rewrite <- !test_single, <- !test_mentions.
  destruct (Js.test ["reverse"] p), (Js.test ["fibonacci"; "fib"] p),
    (Js.test ["factorial"] p), (Js.test ["debounce"] p), (Js.test ["throttle"] p);
    repeat match goal with |- _ /\ _ => split end;
    intros; try reflexivity; congruence.
Qed.

Lemma prime_body_under_other_names_witness :
  code (makeOfflinePlanAndCode "reverse the digits of a prime")
  = primeTemplate "reverseString" /\
  code (makeOfflinePlanAndCode "check prime numbers") = primeTemplate "isPrime".
Proof.
  split.
  - destruct (prime_body_under_other_names "reverse the digits of a prime")
      as (H & _); [no_pattern | no_pattern | by_test |].
    apply H. by_test.
  - destruct (prime_body_under_other_names "check prime numbers")
      as (_ & _ & _ & _ & _ & H); [no_pattern | no_pattern | by_test |].
    apply H; by_test.
Defined.

(* ------------------------------------------------------------------ *)
(** ** Further properties: the plain rendering *)

Lemma logSteps_length (i : nat) (steps : list string) :
  List.length (logSteps i steps) = List.length steps.
Proof.
  revert i. induction steps as [|s steps IH]; intros i; simpl; [reflexivity|].
  now rewrite IH.
Qed.

Lemma logSteps_nth (steps : list string) (i k : nat) (step : string) :
  nth_error steps k = Some step ->
  nth_error (logSteps i steps) k = Some (ConsoleLog (decimal (i + k + 1) ++ ". " ++ step)).
Proof.
  revert i k. induction steps as [|s steps IH]; intros i [|k]; simpl;
    try discriminate.
  - intros [= ->]. now rewrite Nat.add_0_r.
  - intros H. rewrite (IH (S i) k H).
    now replace (S i + k + 1) with (i + S k + 1) by lia.
Qed.

(** X15.  Without [--json] a result is printed as the line "Planning
    Layer", then one line per plan step in plan order, each numbered from 1
    in decimal, then a blank line with "Final Code", then the code: the
    plan's length plus three console lines in all. *)
Theorem render_plain (flags : Flags) (result : PlanAndCode) :
  json flags = false ->
  let n := List.length (plan result) in
  List.length (render flags result) = n + 3 /\
  nth_error (render flags result) 0 = Some (ConsoleLog "Planning Layer") /\
  (forall k step, nth_error (plan result) k = Some step ->
     nth_error (render flags result) (S k)
     = Some (ConsoleLog (decimal (k + 1) ++ ". " ++ step))) /\
  nth_error (render flags result) (n + 1) = Some (ConsoleLog (Js.nl ++ "Final Code")) /\
  nth_error (render flags result) (n + 2) = Some (ConsoleLog (code result)).
Proof.
  intros J n. unfold render. rewrite J.
  assert (Cons : forall (x : Event) l m, nth_error (x :: l) (S m) = nth_error l m)
    by reflexivity.
  refine (conj _ (conj eq_refl (conj _ (conj _ _)))).
  - rewrite !length_app, logSteps_length. simpl. subst n. lia.
  - intros k step H. cbn [app]. rewrite Cons.
    rewrite nth_error_app1 by (rewrite logSteps_length; apply nth_error_Some; congruence).
    exact (logSteps_nth _ 0 k step H).
  - cbn [app]. replace (n + 1) with (S n) by lia. rewrite Cons.
    rewrite nth_error_app2 by (rewrite logSteps_length; subst n; lia).
    rewrite logSteps_length. subst n. now rewrite Nat.sub_diag.
  - cbn [app]. replace (n + 2) with (S (S n)) by lia. rewrite Cons.
    rewrite nth_error_app2 by (rewrite logSteps_length; subst n; lia).
    rewrite logSteps_length. subst n.
    now replace (S (List.length (plan result)) - List.length (plan result)) with 1 by lia.
Qed.

Lemma render_plain_witness :
  let result := mkPlanAndCode ["one"; "two"] "x" in
  List.length (render initialFlags result) = 2 + 3 /\
  nth_error (render initialFlags result) 0 = Some (ConsoleLog "Planning Layer") /\
  (forall k step, nth_error ["one"; "two"] k = Some step ->
     nth_error (render initialFlags result) (S k)
     = Some (ConsoleLog (decimal (k + 1) ++ ". " ++ step))) /\
  nth_error (render initialFlags result) (2 + 1) = Some (ConsoleLog (Js.nl ++ "Final Code")) /\
  nth_error (render initialFlags result) (2 + 2) = Some (ConsoleLog "x").
Proof.
  exact (render_plain initialFlags (mkPlanAndCode ["one"; "two"] "x") eq_refl).
Defined.

(* ------------------------------------------------------------------ *)
(** ** Further properties: the object inside the generated text *)

Lemma lacks_append (c : ascii) (a b : string) :
  lacks c (a ++ b) <-> lacks c a /\ lacks c b.
Proof. unfold lacks. now rewrite all_append, andb_true_iff. Qed.

Lemma lacks_cons (c d : ascii) (s : string) :
  lacks c (String d s) <-> d <> c /\ lacks c s.
Proof.
  unfold lacks. simpl. rewrite andb_true_iff, negb_true_iff.
  now rewrite Ascii.eqb_neq.
Qed.

Lemma upToLastBrace_none (s : string) :
  upToLastBrace s = None <-> lacks "}" s.
Proof.
  induction s as [|c s IH]; [split; reflexivity|].
  cbn [upToLastBrace]. rewrite lacks_cons, <- IH.
  destruct (upToLastBrace s); [split; [discriminate | now intros [_ H]]|].
  destruct (Ascii.eqb_spec c "}") as [->|N].
  - split; [discriminate | now intros [H _]].
  - now split.
Qed.

Lemma upToLastBrace_some (s m : string) :
  upToLastBrace s = Some m <->
  exists mid post, s = mid ++ "}" ++ post /\ m = mid ++ "}" /\ lacks "}" post.
Proof.
  split.
  - revert m. induction s as [|c s IH]; intros m; [discriminate|].
    cbn [upToLastBrace]. destruct (upToLastBrace s) as [m'|] eqn:E.
    + intros [= <-]. destruct (IH m' eq_refl) as (mid & post & -> & -> & L).
      now exists (String c mid), post.
    + destruct (Ascii.eqb_spec c "}") as [->|N]; [|discriminate].
      intros [= <-]. exists EmptyString, s. repeat split.
      now apply upToLastBrace_none.
  - intros (mid & post & -> & -> & L). induction mid as [|c mid IH].
    + cbn [append upToLastBrace]. apply upToLastBrace_none in L. now rewrite L.
    + cbn [append upToLastBrace]. cbn [append] in IH. now rewrite IH.
Qed.

Lemma dropWhile_append (f : ascii -> bool) (a b : string) :
  Js.dropWhile f (a ++ b) =
    match Js.dropWhile f a with
    | EmptyString => Js.dropWhile f b
    | String c r => String c r ++ b
    end.
Proof.
  induction a as [|c a IH]; [reflexivity|]. cbn [append Js.dropWhile].
  destruct (f c); [exact IH | reflexivity].
Qed.

(** X16.  The object that [maybeAIPlanAndCode] cuts out of the generated
    text runs from the first opening brace to the last closing brace after
    it, both included, whatever lies between (further braces, line breaks);
    there is none exactly when no opening brace is followed, somewhere, by a
    closing one.  A text holding two objects thus yields one span covering
    both. *)
Theorem braceMatch_spec (text m : string) :
  (braceMatch text = Some m <->
   exists pre mid post,
     text = pre ++ "{" ++ mid ++ "}" ++ post /\ m = "{" ++ mid ++ "}" /\
     lacks "{" pre /\ lacks "}" post) /\
  (braceMatch text = None <->
   ~ exists pre mid post, text = pre ++ "{" ++ mid ++ "}" ++ post).
Proof.
  set (notOpen := fun c => negb (Ascii.eqb c "{")).
  assert (Some_ : forall m,
            braceMatch text = Some m ->
            exists pre mid post,
              text = pre ++ "{" ++ mid ++ "}" ++ post /\ m = "{" ++ mid ++ "}" /\
              lacks "{" pre /\ lacks "}" post).
  { intros x. unfold braceMatch. fold notOpen.
    pose proof (takeWhile_dropWhile notOpen text) as Split.
    pose proof (all_takeWhile notOpen text) as Pre.
    pose proof (dropWhile_stops notOpen text) as Stop.
    destruct (Js.dropWhile notOpen text) as [|c r]; [discriminate|].
    unfold notOpen in Stop. apply negb_false_iff, Ascii.eqb_eq in Stop. subst c.
    destruct (upToLastBrace r) as [m'|] eqn:U; [|discriminate].
    intros [= <-]. apply upToLastBrace_some in U as (mid & post & -> & -> & L).
    exists (Js.takeWhile notOpen text), mid, post. now repeat split. }
  assert (Found : (exists pre mid post, text = pre ++ "{" ++ mid ++ "}" ++ post) ->
                  exists m, braceMatch text = Some m).
  { intros (pre & mid & post & ->). unfold braceMatch. fold notOpen.
    rewrite dropWhile_append.
    assert (R : forall r, upToLastBrace (r ++ mid ++ "}" ++ post) <> None).
    { intros r N. apply upToLastBrace_none in N.
      apply lacks_append in N as [_ N]. apply lacks_append in N as [_ N].
      apply lacks_cons in N as [N _]. now apply N. }
    destruct (Js.dropWhile notOpen pre) as [|c r].
    - cbn [append Js.dropWhile]. change (notOpen "{"%char) with false. cbn iota.
      specialize (R EmptyString). cbn [append] in R.
      destruct (upToLastBrace (mid ++ String "}" post)); [eexists; reflexivity | now destruct R].
    - cbn [append].
      specialize (R (r ++ "{")). rewrite append_assoc in R. cbn [append] in R.
      destruct (upToLastBrace (r ++ String "{" (mid ++ String "}" post)));
        [eexists; reflexivity | now destruct R]. }
  split.
  - split; [apply Some_|].
    intros (pre & mid & post & -> & -> & LPre & LPost).
    unfold braceMatch. fold notOpen.
    change (pre ++ "{" ++ mid ++ "}" ++ post)
      with (pre ++ String "{" (mid ++ "}" ++ post)).
    rewrite (dropWhile_run notOpen pre (mid ++ "}" ++ post) "{" LPre eq_refl).
    assert (U : upToLastBrace (mid ++ "}" ++ post) = Some (mid ++ "}"))
      by (apply upToLastBrace_some; now exists mid, post).
    now rewrite U.
  - split.
    + intros N F. destruct (Found F) as [x E]. congruence.
    + intros N. destruct (braceMatch text) as [x|] eqn:E; [|reflexivity].
      exfalso. apply N. destruct (Some_ x eq_refl) as (pre & mid & post & T & _).
      now exists pre, mid, post.
Qed.

(* ------------------------------------------------------------------ *)
(** ** Further properties: the JSON rendering *)

Lemma jsonDecodeHead_escape (c : ascii) (r : string) :
  jsonDecodeHead (jsonEscapeChar c ++ r) = Some (c, r).
Proof. destruct c as [[] [] [] [] [] [] [] []]; reflexivity. Qed.

Lemma jsonEscapeChar_printable (c : ascii) :
  Js.all (fun x => (32 <=? Js.code x)%nat) (jsonEscapeChar c) = true.
Proof. destruct c as [[] [] [] [] [] [] [] []]; reflexivity. Qed.

(** Two string bodies followed by their closing quotes agree only if the
    strings and what follows agree. *)
Lemma jsonEscape_cancel (s t x y : string) :
  jsonEscape s ++ Js.dquote ++ x = jsonEscape t ++ Js.dquote ++ y ->
  s = t /\ x = y.
Proof.
  revert t. induction s as [|c s IH]; intros [|d t]; cbn [jsonEscape].
  - cbn [append Js.dquote]. intros [= ->]. now split.
  - rewrite append_assoc. intros E. apply (f_equal jsonDecodeHead) in E.
    rewrite jsonDecodeHead_escape in E. discriminate E.
  - rewrite append_assoc. intros E. apply (f_equal jsonDecodeHead) in E.
    rewrite jsonDecodeHead_escape in E. discriminate E.
  - rewrite !append_assoc. intros E. apply (f_equal jsonDecodeHead) in E.
    rewrite !jsonDecodeHead_escape in E. injection E as -> E.
    destruct (IH t E) as [-> ->]. now split.
Qed.

Lemma jsonString_cancel (s t x y : string) :
  jsonString s ++ x = jsonString t ++ y -> s = t /\ x = y.
Proof.
  unfold jsonString. rewrite !append_assoc. intros E.
  apply append_inv_head in E. now apply jsonEscape_cancel.
Qed.

Lemma jsonMoreItems_cancel (l l' : list string) (r r' : string) :
  jsonMoreItems l (String "," r) = jsonMoreItems l' (String "," r') ->
  l = l' /\ r = r'.
Proof.
  revert l'. induction l as [|s l IH]; intros [|s' l']; cbn [jsonMoreItems].
  - intros E. do 2 apply append_inv_head in E. injection E as ->. now split.
  - intros E. cbn [Js.nl append] in E. discriminate E.
  - intros E. cbn [Js.nl append] in E. discriminate E.
  - intros E. do 3 apply append_inv_head in E.
    apply jsonString_cancel in E as [-> E]. destruct (IH l' E) as [-> ->].
    now split.
Qed.

Lemma join_items (s : string) (steps : list string) (rest : string) :
  Js.join ("," ++ Js.nl) (List.map (fun x => "    " ++ jsonString x) (s :: steps))
  ++ Js.nl ++ "  ]" ++ rest
  = "    " ++ jsonString s ++ jsonMoreItems steps rest.
Proof.
  revert s. induction steps as [|t steps IH]; intros s.
  - cbn [List.map Js.join String.concat jsonMoreItems]. now rewrite !append_assoc.
  - change (Js.join ("," ++ Js.nl)
              (List.map (fun x => "    " ++ jsonString x) (s :: t :: steps)))
      with (("    " ++ jsonString s) ++ ("," ++ Js.nl)
            ++ Js.join ("," ++ Js.nl)
                 (List.map (fun x => "    " ++ jsonString x) (t :: steps))).
    rewrite !append_assoc. cbn [jsonMoreItems].
    do 4 f_equal. exact (IH t).
Qed.

(** The JSON text of a two-key record determines the record, the JSON
    literal of a string determines the string, and no code unit below 32 is
    written into a literal. *)
Lemma json_text_facts :
  (forall r r', jsonPlanAndCode r = jsonPlanAndCode r' -> r = r') /\
  (forall s t, jsonString s = jsonString t -> s = t) /\
  (forall s, Js.all (fun x => (32 <=? Js.code x)%nat) (jsonString s) = true).
Proof.
  refine (conj _ (conj _ _)).
  - intros [l c] [l' c']. unfold jsonPlanAndCode. cbn [plan code].
    intros E. do 5 apply append_inv_head in E.
    assert (Tail : forall x y : string,
              "," ++ Js.nl ++ "  " ++ jsonString "code" ++ ": " ++ jsonString x ++ Js.nl ++ "}"
              = "," ++ Js.nl ++ "  " ++ jsonString "code" ++ ": " ++ jsonString y ++ Js.nl ++ "}" ->
              x = y).
    { intros x y T. do 5 apply append_inv_head in T.
      now apply jsonString_cancel in T as [-> _]. }
    destruct l as [|s l], l' as [|s' l'].
    + apply append_inv_head in E. now rewrite (Tail c c' E).
    + discriminate E.
    + discriminate E.
    + rewrite !append_assoc in E. do 2 apply append_inv_head in E.
      rewrite !join_items in E. apply append_inv_head in E.
      apply jsonString_cancel in E as [-> E].
      apply jsonMoreItems_cancel in E as [-> E].
      f_equal. apply (Tail c c'). exact (f_equal (append ",") E).
  - intros s t E. apply (f_equal (fun x => x ++ EmptyString)) in E.
    now apply jsonString_cancel in E as [-> _].
  - intros s. unfold jsonString. rewrite !all_append. cbn [Js.dquote].
    replace (Js.all (fun x => (32 <=? Js.code x)%nat) (jsonEscape s)) with true;
      [reflexivity|].
    symmetry. induction s as [|c s IH]; [reflexivity|].
    cbn [jsonEscape]. now rewrite all_append, jsonEscapeChar_printable, IH.
Qed.

(* ------------------------------------------------------------------ *)
(** ** Further properties: the fallback name *)








(* ------------------------------------------------------------------ *)
(** ** Instances of the further properties *)

Lemma parseArgs_prompt_trimmed_witness :
  snd (parseArgs ["  "; "--json"; EmptyString]) = EmptyString.
Proof.
  destruct (parseArgs_prompt_trimmed ["  "; "--json"; EmptyString]) as (_ & _ & H).
  apply H. repeat constructor.
Defined.

Lemma exec_patterns_spec_witness :
  captured ["function"] "a function isOdd, called parity" "isOdd" /\
  captured ["called"; "named"] "a function isOdd, called parity" "parity" /\
  ~ containsPattern ["function"] "Function isOdd; function(x)".
Proof.
  refine (conj _ (conj _ _)).
  - apply (exec_patterns_spec "a function isOdd, called parity" "isOdd"). reflexivity.
  - apply (exec_patterns_spec "a function isOdd, called parity" "parity"). reflexivity.
  - apply (exec_patterns_spec "Function isOdd; function(x)" EmptyString). reflexivity.
Defined.

Lemma braceMatch_spec_witness :
  braceMatch "sure: {a} and {b}." = Some "{a} and {b}" /\
  braceMatch "} then {" = None.
Proof.
  split.
  - apply (braceMatch_spec "sure: {a} and {b}." "{a} and {b}").
    exists "sure: ", "a} and {b", ".". repeat split.
  - apply (braceMatch_spec "} then {" EmptyString).
    intros (pre & mid & post & E).
    assert (B : braceMatch "} then {" <> None).
    { rewrite E. intros N.
      apply (braceMatch_spec (pre ++ "{" ++ mid ++ "}" ++ post) EmptyString) in N.
      apply N. now exists pre, mid, post. }
    now apply B.
Defined.

(* ------------------------------------------------------------------ *)
(** ** Further properties: the JSON text of an offline result *)

Lemma generate_offline (w : World) (flags : Flags) (prompt : string) :
  offlinePath w flags prompt ->
  snd (generate w flags prompt) = makeOfflinePlanAndCode prompt.
Proof.
  intros [A|N]; unfold generate.
  - now rewrite A.
  - destruct (ai flags); [|reflexivity].
    destruct (maybeAIPlanAndCode w prompt) as [req remote].
    cbn [snd] in *. now subst remote.
Qed.

Lemma main_run_proper (w : World) (argv : list string) :
  version (fst (parseArgs argv)) = false ->
  help (fst (parseArgs argv)) = false ->
  snd (parseArgs argv) <> EmptyString ->
  main w argv = run w (fst (parseArgs argv)) (snd (parseArgs argv)).
Proof.
  unfold main. destruct (parseArgs argv) as [flags prompt]. cbn [fst snd].
  intros -> -> N. destruct prompt; [now destruct N | reflexivity].
Qed.

(** X17.  With [--json] on the offline path, a run proper prints the JSON
    text of the offline result, an object with the keys [plan] and [code].
    That text loses nothing: it determines the result and even the prompt,
    which the first plan step restates.  No code unit below 32 is written
    into a JSON string literal, so the line feeds of the code appear as
    escapes and each literal stays on its line. *)
Theorem json_offline_rendering (w : World) (argv : list string) :
  let flags := fst (parseArgs argv) in
  let prompt := snd (parseArgs argv) in
  let text := jsonPlanAndCode (makeOfflinePlanAndCode prompt) in
  version flags = false -> help flags = false -> prompt <> EmptyString ->
  json flags = true -> offlinePath w flags prompt ->
  In (ConsoleLog text) (events (main w argv)) /\
  (forall other,
     text = jsonPlanAndCode (makeOfflinePlanAndCode other) ->
     makeOfflinePlanAndCode prompt = makeOfflinePlanAndCode other /\ prompt = other) /\
  (forall s, Js.all (fun x => (32 <=? Js.code x)%nat) (jsonString s) = true).
Proof.
  intros flags prompt text V H P J O.
  destruct json_text_facts as (Inj & _ & Printable).
  refine (conj _ (conj _ Printable)).
  - rewrite (main_run_proper w argv V H P). fold flags prompt. unfold run.
    pose proof (generate_offline w flags prompt O) as G.
    destruct (generate w flags prompt) as [requested result]. cbn [snd] in G.
    subst result. unfold render. rewrite J. fold text.
    destruct (save w flags (makeOfflinePlanAndCode prompt)) as [saved threw].
    destruct threw; cbn [events]; apply in_or_app; right; now left.
  - intros other E. apply Inj in E. split; [exact E|].
    apply (f_equal plan) in E. unfold makeOfflinePlanAndCode in E. cbn [plan] in E.
    unfold makePlan in E. cbn [app] in E. now injection E as E _.
Qed.

Lemma json_offline_rendering_witness :
  In (ConsoleLog (jsonPlanAndCode (makeOfflinePlanAndCode "sort a list")))
     (events (main offlineWorld ["--json"; "sort"; "a"; "list"])) /\
  (jsonPlanAndCode (makeOfflinePlanAndCode "sort a list")
   = jsonPlanAndCode (makeOfflinePlanAndCode "sort a list") ->
   "sort a list" = "sort a list").
Proof.
  destruct (json_offline_rendering offlineWorld ["--json"; "sort"; "a"; "list"])
    as (I & D & _); try reflexivity; [discriminate | now left |].
  split; [exact I|]. intros E. exact (proj2 (D "sort a list" E)).
Defined.
